(** * Slack bridge for Browser Use agents: a shallow embedding of
      [agent/slack-app/slack_bot.py] and the properties of its event
      handling, command dispatch, delegation and reply paths.

    The Python class [SlackBot] is embedded as functions in a small
    state-and-exception monad.  The mutable part of [self]
    ([processed_events]) lives in the state together with two traces: the
    calls made to external collaborators (the Slack web client, the
    [Browser] and [Agent] classes) and the records handed to [logger].
    The collaborators themselves are not implemented by the program; their
    behaviour is a parameter ([World]) which decides, for every call and
    given all calls made before it, whether the call returns or raises.

    Conventions.
    - A Python [str] is the [string] of its UTF-8 bytes.  [strip] removes
      every character Python counts as whitespace, the ones outside ASCII
      included.  [lower] folds the ASCII letters only; the program uses it
      for nothing but the comparison with "help", "--help" and "-h", and no
      character outside ASCII lowers to a letter of these words, so the
      comparison comes out as in Python.
    - Exceptions are the instances of Python's [Exception]:
      [SlackApiError] and any other.  Signals deriving only from
      [BaseException] (interpreter exit, task cancellation) are not
      errors of the program and are not modelled.
    - One handler invocation runs to completion before the next starts. *)

From stdpp Require Import base strings gmap list pretty.

Local Open Scope string_scope.
Local Open Scope list_scope.

#[local] Set Warnings "-clear-no-such-hyp".

(** ** Python strings *)

Module PyStr.

(** The newline character of the f-strings' [\n]. *)
Definition nl : string := String (Ascii.ascii_of_nat 10) "".

(** [c.lower()] on ASCII. *)
Definition lower_char (c : Ascii.ascii) : Ascii.ascii :=
  let n := Ascii.nat_of_ascii c in
  if Nat.leb 65 n && Nat.leb n 90 then Ascii.ascii_of_nat (n + 32) else c.

(** [s.lower()] *)
Fixpoint lower (s : string) : string :=
  match s with
  | EmptyString => EmptyString
  | String c s' => String (lower_char c) (lower s')
  end.

(** [s.startswith(p)] *)
Fixpoint startswith (s p : string) {struct p} : bool :=
  match p with
  | EmptyString => true
  | String c p' =>
      match s with
      | EmptyString => false
      | String d s' => if Ascii.eqb c d then startswith s' p' else false
      end
  end.

(** [s[n:]] for [n >= 0] *)
Fixpoint slice_from (n : nat) (s : string) : string :=
  match n, s with
  | O, _ => s
  | S _, EmptyString => EmptyString
  | S n', String _ s' => slice_from n' s'
  end.

(** The UTF-8 bytes of a code point. *)
Definition utf8 (cp : N) : string :=
  let byte (n : N) := Ascii.ascii_of_N n in
  let continuation (n : N) := byte (128 + n mod 64)%N in
  if (cp <? 128)%N then
    String (byte cp) ""
  else if (cp <? 2048)%N then
    String (byte (192 + cp / 64)%N) (String (continuation cp) "")
  else if (cp <? 65536)%N then
    String (byte (224 + cp / 4096)%N)
      (String (continuation (cp / 64)%N) (String (continuation cp) ""))
  else
    String (byte (240 + cp / 262144)%N)
      (String (continuation (cp / 4096)%N)
         (String (continuation (cp / 64)%N) (String (continuation cp) ""))).

(** The code points [c] with [c.isspace()], the characters [strip]
    removes: TAB to CR, FS to US, SPACE, NEL, NO-BREAK SPACE, OGHAM SPACE
    MARK, EN QUAD to HAIR SPACE, LINE and PARAGRAPH SEPARATOR, NARROW
    NO-BREAK SPACE, MEDIUM MATHEMATICAL SPACE and IDEOGRAPHIC SPACE. *)
Definition whitespace_code_points : list N :=
  [0x09; 0x0A; 0x0B; 0x0C; 0x0D; 0x1C; 0x1D; 0x1E; 0x1F; 0x20; 0x85; 0xA0;
   0x1680; 0x2000; 0x2001; 0x2002; 0x2003; 0x2004; 0x2005; 0x2006; 0x2007;
   0x2008; 0x2009; 0x200A; 0x2028; 0x2029; 0x202F; 0x205F; 0x3000]%N.

(** The whitespace characters, as strings. *)
Definition whitespace : list string := map utf8 whitespace_code_points.

(** [s] with its characters in reverse order of bytes. *)
Fixpoint reverse (s : string) : string :=
  match s with
  | EmptyString => EmptyString
  | String c s' => reverse s' +:+ String c EmptyString
  end.

(** What follows [p] in [s], when [s] starts with [p]. *)
Fixpoint strip_prefix (p s : string) {struct p} : option string :=
  match p with
  | EmptyString => Some s
  | String c p' =>
      match s with
      | EmptyString => None
      | String d s' => if Ascii.eqb c d then strip_prefix p' s' else None
      end
  end.

(** What follows the first of the strings [ws] that [s] starts with. *)
Fixpoint first_match (ws : list string) (s : string) : option string :=
  match ws with
  | [] => None
  | w :: ws' =>
      match strip_prefix w s with
      | Some rest => Some rest
      | None => first_match ws' s
      end
  end.

(** Remove leading occurrences of the strings [ws] from [s], at most
    [fuel] of them. *)
Fixpoint lstrip_with (ws : list string) (fuel : nat) (s : string) : string :=
  match fuel with
  | O => s
  | S fuel' =>
      match first_match ws s with
      | Some rest => lstrip_with ws fuel' rest
      | None => s
      end
  end.

(** [s.lstrip()]: a string has no more characters than bytes. *)
Definition lstrip (s : string) : string :=
  lstrip_with whitespace (String.length s) s.

(** [s.rstrip()] *)
Definition rstrip (s : string) : string :=
  reverse (lstrip_with (map reverse whitespace) (String.length s) (reverse s)).

(** [s.strip()] *)
Definition strip (s : string) : string := rstrip (lstrip s).

(** [s in l] for a list of strings *)
Definition in_list (s : string) (l : list string) : bool :=
  existsb (String.eqb s) l.

End PyStr.

(** ** Python values found in an event payload *)

(** The JSON scalars an event dictionary can hold under the keys the
    handler reads. *)
Inductive pyval : Type :=
| VNone
| VBool (b : bool)
| VInt (z : Z)
| VStr (s : string).

(** Truth value of [v] in a boolean context. *)
Definition truthy (v : pyval) : bool :=
  match v with
  | VNone => false
  | VBool b => b
  | VInt z => negb (Z.eqb z 0)
  | VStr s => negb (String.eqb s "")
  end.

(** [str(v)], which is also what an f-string field [{v}] renders. *)
Definition py_str (v : pyval) : string :=
  match v with
  | VNone => "None"
  | VBool true => "True"
  | VBool false => "False"
  | VInt z => pretty z
  | VStr s => s
  end.

(** [type(v).__name__] *)
Definition type_name (v : pyval) : string :=
  match v with
  | VNone => "NoneType"
  | VBool _ => "bool"
  | VInt _ => "int"
  | VStr _ => "str"
  end.

(** [v == s] for a string literal [s] *)
Definition eq_str (v : pyval) (s : string) : bool :=
  match v with
  | VStr t => String.eqb t s
  | _ => false
  end.

(** [v is not None] *)
Definition is_not_None (v : pyval) : bool :=
  match v with
  | VNone => false
  | _ => true
  end.

(** [d.get(k)] and [d.get(k, default)] *)
Definition dict_get (d : gmap string pyval) (k : string) : pyval :=
  default VNone (d !! k).

Definition dict_get_default (d : gmap string pyval) (k : string) (dflt : pyval) : pyval :=
  default dflt (d !! k).

(** ** Exceptions *)

Inductive exn : Type :=
| SlackApiError (msg : string) (error : string)
    (** [slack_sdk.errors.SlackApiError]: [msg] is [str(e)], [error] is
        [e.response['error']], the platform's machine-readable code. *)
| Exception (msg : string)
    (** any other exception; [msg] is [str(e)]. *).

(** [str(e)] *)
Definition exn_str (e : exn) : string :=
  match e with
  | SlackApiError msg _ => msg
  | Exception msg => msg
  end.

Inductive outcome (A : Type) : Type :=
| Return (a : A)
| Raise (e : exn).
Arguments Return {A} a.
Arguments Raise {A} e.

(** ** The agent's run history *)

Module Views.

(** Modelled from the spec: [browser_use.agent.views.ActionResult] is not
    part of the sources at hand.  A step result "possibly containing
    extracted textual content". *)
Record ActionResult : Type := { extracted_content : option string }.

(** Modelled from the spec: [browser_use.agent.views.AgentHistory] is not
    part of the sources at hand.  One step of a run, with its ordered
    results. *)
Record AgentHistory : Type := { result : list ActionResult }.

(** Modelled from the spec: [browser_use.agent.views.AgentHistoryList] is
    not part of the sources at hand.  A run history, "from which a terminal
    done flag and an ordered list of step results are read": [is_done] is
    what [is_done()] answers, [history] the steps in order. *)
Record AgentHistoryList : Type := { is_done : bool; history : list AgentHistory }.

End Views.
Export Views (ActionResult, AgentHistory, AgentHistoryList).

(** ** Bot state, traces and the outside world *)

Inductive log_level : Type := INFO | WARNING | ERROR.

(** Calls to external collaborators, in the order they are made. *)
Inductive call : Type :=
| chat_postMessage (channel : pyval) (text : string) (thread_ts : pyval)
| Browser_new
| Agent_new (task : string)
| Agent_run (max_steps : Z).

Record bot_state : Type := {
  processed_events : gset string;
  calls : list call;
  logs : list (log_level * string)
}.

(** The state right after [__init__]. *)
Definition init_state : bot_state :=
  {| processed_events := ∅; calls := []; logs := [] |}.

(** How the collaborators answer.  Each answer may depend on every call
    made so far (the first argument), so that, e.g., a first post can be
    delivered and a second one rejected. *)
Record World : Type := {
  post_answer : list call → pyval → string → pyval → option exn;
  browser_answer : list call → option exn;
  agent_answer : list call → string → option exn;
  run_answer : list call → string → Z → exn + AgentHistoryList
}.

(** The configuration fields of [self] set by [__init__]. *)
Record SlackBot : Type := {
  command_prefix : string;
  ack : bool;
  max_steps : Z
}.

(** ** The monad *)

Definition M (A : Type) : Type := bot_state → outcome A * bot_state.

#[export] Instance M_ret : MRet M := λ A a st, (Return a, st).

#[export] Instance M_bind : MBind M := λ A B f m st,
  match m st with
  | (Return a, st') => f a st'
  | (Raise e, st') => (Raise e, st')
  end.

Definition raise {A} (e : exn) : M A := λ st, (Raise e, st).

(** [try: body / except <filter> as e: handler e].  The handler answers
    [None] for exceptions the [except] clause does not match; those
    propagate. *)
Definition try_except {A} (body : M A) (handler : exn → option (M A)) : M A :=
  λ st,
    match body st with
    | (Return a, st') => (Return a, st')
    | (Raise e, st') =>
        match handler e with
        | Some h => h st'
        | None => (Raise e, st')
        end
    end.

(** [except Exception as e] matches everything modelled. *)
Definition except_Exception {A} (h : exn → M A) : exn → option (M A) :=
  λ e, Some (h e).

(** [except SlackApiError as e] *)
Definition except_SlackApiError {A} (h : string → string → M A) : exn → option (M A) :=
  λ e, match e with
       | SlackApiError msg err => Some (h msg err)
       | Exception _ => None
       end.

(** The three ways a state changes. *)
Definition log_record (lvl : log_level) (msg : string) (st : bot_state) : bot_state :=
  {| processed_events := processed_events st;
     calls := calls st;
     logs := logs st ++ [(lvl, msg)] |}.

Definition call_record (c : call) (st : bot_state) : bot_state :=
  {| processed_events := processed_events st;
     calls := calls st ++ [c];
     logs := logs st |}.

Definition seen_record (event_id : string) (st : bot_state) : bot_state :=
  {| processed_events := {[event_id]} ∪ processed_events st;
     calls := calls st;
     logs := logs st |}.

(** [logger.info], [logger.warning], [logger.error] *)
Definition logger (lvl : log_level) (msg : string) : M unit :=
  λ st, (Return (), log_record lvl msg st).

(** Record an external call and hand back the trace as it was before. *)
Definition external (c : call) : M (list call) :=
  λ st, (Return (calls st), call_record c st).

Definition answer (o : option exn) : M unit :=
  match o with
  | None => mret ()
  | Some e => raise e
  end.

(** Python's [l[-1]] and [l[0]] *)
Definition index_last {A} (l : list A) : M A :=
  match last l with
  | Some x => mret x
  | None => raise (Exception "list index out of range")
  end.

Definition index_first {A} (l : list A) : M A :=
  match head l with
  | Some x => mret x
  | None => raise (Exception "list index out of range")
  end.

(** ** The program *)

Section SlackBot.
Import PyStr.
Context (world : World) (self : SlackBot).

(** *** Calls to the collaborators *)

(** [await self.client.chat_postMessage(channel=.., text=.., thread_ts=..)] *)
Definition client_chat_postMessage (channel : pyval) (text : string)
    (thread_ts : pyval) : M unit :=
  before ← external (chat_postMessage channel text thread_ts);
  answer (post_answer world before channel text thread_ts).

(** [Browser(config=self.browser_config)] *)
Definition Browser : M unit :=
  before ← external Browser_new;
  answer (browser_answer world before).

(** [Agent(task=task, llm=self.llm, browser=browser)] *)
Definition Agent (task : string) : M unit :=
  before ← external (Agent_new task);
  answer (agent_answer world before task).

(** [await agent.run(max_steps=self.max_steps)] *)
Definition agent_run (task : string) : M AgentHistoryList :=
  before ← external (Agent_run (max_steps self));
  match run_answer world before task (max_steps self) with
  | inl e => raise e
  | inr r => mret r
  end.

(** *** [SlackBot.send_message] *)

Definition send_message (channel : pyval) (text : string) (thread_ts : pyval) : M unit :=
  try_except
    (client_chat_postMessage channel text thread_ts)
    (except_SlackApiError (λ _ error,
       logger ERROR ("Error sending message: " +:+ error))).

(** *** [SlackBot.run_agent] *)

Definition no_result : string :=
  "Task completed, but no specific result was returned.".

Definition error_text (e : exn) : string :=
  "Error during task execution: " +:+ exn_str e.

(** The body of the [try] block of [run_agent]. *)
Definition run_agent_attempt (task : string) : M string :=
  Browser;;
  Agent task;;
  result ← agent_run task;
  agent_message ←
    (if Views.is_done result then
       last_step ← index_last (Views.history result);
       first_result ← index_first (Views.result last_step);
       mret (Views.extracted_content first_result)
     else mret None);
  mret (match agent_message with
        | None => no_result
        | Some m => m
        end).

Definition run_agent (task : string) : M string :=
  try_except
    (run_agent_attempt task)
    (except_Exception (λ e,
       logger ERROR (error_text e);;
       mret (error_text e))).

(** *** [SlackBot._handle_command] *)

Definition help_text : string :=
  "*Browser Use Slack Bot*" +:+ nl +:+ nl +:+
  "Use `" +:+ command_prefix self +:+ " <task>` to run a browser task." +:+ nl +:+ nl +:+
  "Examples:" +:+ nl +:+
  "• `" +:+ command_prefix self +:+ " Compare the price of gpt-4o and DeepSeek-V3`" +:+ nl +:+
  "• `" +:+ command_prefix self +:+ " Find the latest news about AI on techcrunch.com`" +:+ nl +:+
  "• `" +:+ command_prefix self +:+ " Search for job openings at OpenAI and summarize the requirements`".

Definition ack_text (user_id : pyval) (task : string) : string :=
  "<@" +:+ py_str user_id +:+ "> I'm working on: *" +:+ task +:+ "*" +:+ nl +:+
  "This may take a few minutes...".

Definition completed_text (user_id : pyval) (agent_message : string) : string :=
  "<@" +:+ py_str user_id +:+ "> Task completed:" +:+ nl +:+ nl +:+ agent_message.

(** The acknowledgment block of [_handle_command]. *)
Definition acknowledge (task : string) (user_id channel thread_ts : pyval) : M unit :=
  if ack self then
    try_except
      (send_message channel (ack_text user_id task) thread_ts)
      (except_Exception (λ e,
         logger ERROR ("Error sending acknowledgment message: " +:+ exn_str e)))
  else mret ().

(** The [except] branch of the agent block of [_handle_command]. *)
Definition report_error (e : exn) (channel thread_ts : pyval) : M unit :=
  let error_message := error_text e in
  logger ERROR error_message;;
  send_message channel error_message thread_ts.

(** The agent block of [_handle_command]. *)
Definition run_and_reply (task : string) (user_id channel thread_ts : pyval) : M unit :=
  try_except
    (agent_message ← run_agent task;
     send_message channel (completed_text user_id agent_message) thread_ts)
    (except_Exception (λ e, report_error e channel thread_ts)).

(** What [_handle_command] does once the help command is ruled out. *)
Definition handle_task (task : string) (user_id channel thread_ts : pyval) : M unit :=
  acknowledge task user_id channel thread_ts;;
  run_and_reply task user_id channel thread_ts.

Definition _handle_command (text : string) (user_id channel thread_ts : pyval) : M unit :=
  let task := strip (slice_from (String.length (command_prefix self) + 1) text) in
  if in_list (lower task) ["help"; "--help"; "-h"] then
    send_message channel help_text thread_ts
  else
    handle_task task user_id channel thread_ts.

(** *** [SlackBot._handle_event] *)

(** The duplicate filter of [_handle_event] (the membership test on
    [self.processed_events], its early return and the [add]): answers
    whether the identifier is new, and records it when it is. *)
Definition deduplicate (event_id : string) : M bool :=
  λ st,
    if bool_decide (event_id ∈ processed_events st) then
      (logger INFO ("Event " +:+ event_id +:+ " already processed");; mret false) st
    else
      (Return true, seen_record event_id st).

(** [text and text.startswith(f"{self.command_prefix} ")]; calling
    [startswith] on a value that is not a [str] raises [AttributeError]. *)
Definition is_command (text : pyval) : M bool :=
  if truthy text then
    match text with
    | VStr s => mret (startswith s (command_prefix self +:+ " "))
    | _ => raise (Exception ("'" +:+ type_name text +:+
                             "' object has no attribute 'startswith'"))
    end
  else mret false.

(** What [_handle_event] does with a new identifier, once it is
    recorded: the checks on the event's type and subtype, and the
    dispatch on its text. *)
Definition process_new (event : gmap string pyval) : M unit :=
  if negb (eq_str (dict_get event "type") "message") then mret ()
  else if match event !! "subtype" with
          | Some subtype => eq_str subtype "bot_message"
          | None => false
          end then mret ()
  else
    let text := dict_get_default event "text" (VStr "") in
    let user_id := dict_get event "user" in
    let channel := dict_get event "channel" in
    let thread_ts := dict_get event "ts" in
    command ← is_command text;
    if command && is_not_None user_id && is_not_None channel then
      match text with
      | VStr s => _handle_command s user_id channel thread_ts
      | _ => mret ()
      end
    else
      again ← is_command text;
      if (again : bool) then
        logger ERROR ("Missing required fields in event: user_id=" +:+
                      py_str user_id +:+ ", channel=" +:+ py_str channel)
      else mret ().

Definition _handle_event (event : gmap string pyval) (event_id : string) : M unit :=
  try_except
    (logger INFO ("Received event id: " +:+ event_id);;
     if negb (truthy (VStr event_id)) then
       logger WARNING "Event ID missing in event data"
     else
       fresh ← deduplicate event_id;
       if negb fresh then mret ()
       else process_new event)
    (except_Exception (λ e,
       logger ERROR ("Error in handle_event: " +:+ exn_str e))).

(** A session: the deliveries the transport hands to [_handle_event],
    one after the other. *)
Definition delivery : Type := (gmap string pyval * string)%type.

Fixpoint handle_events (ds : list delivery) (st : bot_state) : bot_state :=
  match ds with
  | [] => st
  | (event, event_id) :: ds' => handle_events ds' (snd (_handle_event event event_id st))
  end.

End SlackBot.

(** ** The command parser as the specification words it *)

(** [parse(text, prefix) -> {Ignore | Help | Task(body)}] *)
Inductive parsed : Type :=
| Ignore
| Help
| Task (body : string).

Definition equals_ignoring_case (a b : string) : bool :=
  String.eqb (PyStr.lower a) (PyStr.lower b).

(** If the text does not start with the prefix followed by a single space
    the result is [Ignore]; otherwise the prefix and the space are
    stripped and the remainder trimmed; a remainder equal to "help",
    "--help" or "-h" up to case gives [Help], any other remainder [Task]. *)
Definition spec_parse (text prefix : string) : parsed :=
  if PyStr.startswith text (prefix +:+ " ") then
    let remainder := PyStr.strip (PyStr.slice_from (String.length (prefix +:+ " ")) text) in
    if equals_ignoring_case remainder "help"
       || equals_ignoring_case remainder "--help"
       || equals_ignoring_case remainder "-h"
    then Help
    else Task remainder
  else Ignore.

(** ** Concrete bots, worlds and events *)

Module Scenario.

(** The bot with the defaults of [__init__]. *)
Definition bot : SlackBot :=
  {| command_prefix := "$bu"; ack := true; max_steps := 100 |}.

(** The same bot with the acknowledgment switched off. *)
Definition terse_bot : SlackBot :=
  {| command_prefix := "$bu"; ack := false; max_steps := 100 |}.

(** Every post is delivered. *)
Definition delivered : list call → pyval → string → pyval → option exn :=
  λ _ _ _ _, None.

(** The post made after [n] earlier calls ends with [e]; the others are
    delivered. *)
Definition fails_after (n : nat) (e : exn) :
    list call → pyval → string → pyval → option exn :=
  λ before _ _ _, if Nat.eqb (length before) n then Some e else None.

(** A world whose constructors succeed. *)
Definition world (post : list call → pyval → string → pyval → option exn)
    (run : exn + AgentHistoryList) : World :=
  {| post_answer := post;
     browser_answer := λ _, None;
     agent_answer := λ _ _, None;
     run_answer := λ _ _ _, run |}.

(** A finished run whose last step has one result. *)
Definition finished (content : option string) : AgentHistoryList :=
  {| Views.is_done := true;
     Views.history :=
       [ {| Views.result := [ {| Views.extracted_content := content |} ] |} ] |}.

(** A run that used up its steps without finishing. *)
Definition unfinished : AgentHistoryList :=
  {| Views.is_done := false;
     Views.history :=
       [ {| Views.result := [ {| Views.extracted_content := Some "partial" |} ] |} ] |}.

(** A finished run with nothing recorded. *)
Definition hollow : AgentHistoryList :=
  {| Views.is_done := true; Views.history := [] |}.

(** A plain user message. *)
Definition message (user text : string) : gmap string pyval :=
  <["type" := VStr "message"]>
    (<["user" := VStr user]>
       (<["channel" := VStr "C1"]>
          (<["text" := VStr text]>
             (<["ts" := VStr "T1"]> ∅)))).

End Scenario.

(** ** The Socket Mode listener *)

Module SocketMode.

(** The two keys of [request.payload] the listener reads; [None] stands
    for an absent key. *)
Record Payload : Type := {
  event : option (gmap string pyval);
  event_id : option string
}.

(** [slack_sdk.socket_mode.request.SocketModeRequest], as far as the
    listener reads it. *)
Record SocketModeRequest : Type := {
  envelope_id : string;
  type : string;
  payload : Payload
}.

End SocketMode.
Export SocketMode (SocketModeRequest).

(** The bot together with the acknowledgments the listener has handed to
    the socket client, delivered or not, given by their envelope
    identifiers in the order they were handed over. *)
Record socket_state : Type := {
  bot_state_of : bot_state;
  responses : list string
}.

(** How the socket client answers [send_socket_mode_response], given the
    acknowledgments and the other calls made before. *)
Definition Responder : Type := list string → list call → string → option exn.

Section Listener.
Context (respond : Responder) (world : World) (self : SlackBot).

(** [SlackBot._handle_socket_request].  The acknowledgment is outside any
    [try]: when sending it raises, the exception leaves the listener. *)
Definition _handle_socket_request (request : SocketModeRequest)
    (ss : socket_state) : outcome unit * socket_state :=
  let sent := responses ss ++ [SocketMode.envelope_id request] in
  match respond (responses ss) (calls (bot_state_of ss))
          (SocketMode.envelope_id request) with
  | Some e => (Raise e, {| bot_state_of := bot_state_of ss; responses := sent |})
  | None =>
      if String.eqb (SocketMode.type request) "events_api" then
        let event := default ∅ (SocketMode.event (SocketMode.payload request)) in
        let event_id := default "" (SocketMode.event_id (SocketMode.payload request)) in
        let (r, st) := _handle_event world self event event_id (bot_state_of ss) in
        (r, {| bot_state_of := st; responses := sent |})
      else
        (Return (), {| bot_state_of := bot_state_of ss; responses := sent |})
  end.

(** The requests of a connection, handed to the listener one after the
    other; a request whose handling raised does not stop the next one. *)
Fixpoint handle_requests (requests : list SocketModeRequest) (ss : socket_state)
    : socket_state :=
  match requests with
  | [] => ss
  | request :: rest => handle_requests rest (snd (_handle_socket_request request ss))
  end.

End Listener.

(** ** Sessions without their redeliveries *)

(** The deliveries of a session that get past the identifier checks of
    [_handle_event], given the identifiers seen before: those with an
    identifier that is neither missing nor seen. *)
Fixpoint effective (seen : gset string) (ds : list delivery) : list delivery :=
  match ds with
  | [] => []
  | (event, event_id) :: ds' =>
      if bool_decide (event_id = "" ∨ event_id ∈ seen) then effective seen ds'
      else (event, event_id) :: effective ({[event_id]} ∪ seen) ds'
  end.

(** The number of agent runs in a trace. *)
Definition is_run (c : call) : bool :=
  match c with
  | Agent_run _ => true
  | _ => false
  end.

Definition count_runs (cs : list call) : nat := length (filter (λ c, is_run c = true) cs).

(** ** Vocabulary for the properties *)

(** [keeps_seen m]: [m] leaves the seen-set alone, whether it returns or
    raises. *)
Definition keeps_seen {A} (m : M A) : Prop :=
  ∀ st, processed_events (snd (m st)) = processed_events st.

(** [returns m]: [m] never raises. *)
Definition returns {A} (m : M A) : Prop :=
  ∀ st, ∃ a, fst (m st) = Return a.

(** [grows m]: [m] only appends to the trace of external calls. *)
Definition grows {A} (m : M A) : Prop :=
  ∀ st, ∃ cs, calls (snd (m st)) = calls st ++ cs.

(** [starts c m]: whatever else it does, [m] first makes the call [c]. *)
Definition starts {A} (c : call) (m : M A) : Prop :=
  ∀ st, ∃ cs, calls (snd (m st)) = calls st ++ c :: cs.

(** [transport_only world]: the only way a post fails in [world] is the
    platform rejecting it, a [SlackApiError]. *)
Definition transport_only (world : World) : Prop :=
  ∀ before channel text thread_ts e,
    post_answer world before channel text thread_ts = Some e →
    ∃ msg error, e = SlackApiError msg error.

(** [same_outside st st']: two states that differ at most in their log. *)
Definition same_outside (st st' : bot_state) : Prop :=
  processed_events st = processed_events st' ∧ calls st = calls st'.

(** [blind m]: [m] does not read the log; from states that differ at most
    in their log it ends the same way, in states that differ at most in
    their log. *)
Definition blind {A} (m : M A) : Prop :=
  ∀ st st', same_outside st st' →
    fst (m st) = fst (m st') ∧ same_outside (snd (m st)) (snd (m st')).

(** [emits P m]: [m] only appends to the trace, and every call it appends
    satisfies [P]. *)
Definition emits {A} (P : call → Prop) (m : M A) : Prop :=
  ∀ st, ∃ cs, calls (snd (m st)) = calls st ++ cs ∧ Forall P cs.

(** A call that, if it is a post, goes to the given channel and thread. *)
Definition goes_to (channel thread_ts : pyval) (c : call) : Prop :=
  match c with
  | chat_postMessage ch _ ts => ch = channel ∧ ts = thread_ts
  | _ => True
  end.

(** A call that, if it constructs an agent, gives it the task [task]. *)
Definition works_on (task : string) (c : call) : Prop :=
  match c with
  | Agent_new t => t = task
  | _ => True
  end.

(** [made_of ws s]: [s] is a concatenation of strings of [ws]. *)
Inductive made_of (ws : list string) : string → Prop :=
| made_of_nil : made_of ws ""
| made_of_cons (w s : string) : w ∈ ws → made_of ws s → made_of ws (w +:+ s).

(** [blank s]: [s] consists of whitespace characters only. *)
Definition blank (s : string) : Prop := made_of PyStr.whitespace s.

(** [addressed event text]: [event] is a message that is not a bot
    message, carries the string [text] as its text, and names a sender and
    a channel. *)
Definition addressed (event : gmap string pyval) (text : string) : Prop :=
  eq_str (dict_get event "type") "message" = true ∧
  (∀ subtype, event !! "subtype" = Some subtype →
              eq_str subtype "bot_message" = false) ∧
  dict_get_default event "text" (VStr "") = VStr text ∧
  is_not_None (dict_get event "user") = true ∧
  is_not_None (dict_get event "channel") = true.

(** * Properties *)

(** ** Generic facts about computations *)

Create HintDb frame.

Lemma keeps_seen_ret {A} (a : A) : keeps_seen (mret a : M A).
Proof. by intros st. Qed.

Lemma keeps_seen_raise {A} e : keeps_seen (raise e : M A).
Proof. by intros st. Qed.

Lemma keeps_seen_logger lvl msg : keeps_seen (logger lvl msg).
Proof. by intros st. Qed.

Lemma keeps_seen_external c : keeps_seen (external c).
Proof. by intros st. Qed.

Lemma keeps_seen_answer o : keeps_seen (answer o).
Proof. destruct o; by intros st. Qed.

Lemma keeps_seen_bind {A B} (m : M A) (k : A → M B) :
  keeps_seen m → (∀ a, keeps_seen (k a)) → keeps_seen (m ≫= k).
Proof.
  intros Hm Hk st. unfold mbind, M_bind. specialize (Hm st).
  destruct (m st) as [[a|e] st']; simpl in *; [|done].
  by rewrite Hk.
Qed.

Lemma keeps_seen_try {A} (body : M A) handler :
  keeps_seen body →
  (∀ e h, handler e = Some h → keeps_seen h) →
  keeps_seen (try_except body handler).
Proof.
  intros Hb Hh st. unfold try_except. specialize (Hb st).
  destruct (body st) as [[a|e] st']; simpl in *; [done|].
  destruct (handler e) as [h|] eqn:E; [|done].
  by rewrite (Hh e h E).
Qed.

#[export] Hint Resolve keeps_seen_ret keeps_seen_raise keeps_seen_logger
  keeps_seen_external keeps_seen_answer : frame.

Lemma returns_ret {A} (a : A) : returns (mret a : M A).
Proof. intros st. by exists a. Qed.

Lemma returns_logger lvl msg : returns (logger lvl msg).
Proof. intros st. by exists (). Qed.

Lemma returns_bind {A B} (m : M A) (k : A → M B) :
  returns m → (∀ a, returns (k a)) → returns (m ≫= k).
Proof.
  intros Hm Hk st. unfold mbind, M_bind. destruct (Hm st) as [a Ha].
  destruct (m st) as [[a'|e] st']; simpl in *; [|done].
  apply Hk.
Qed.

Lemma returns_try_Exception {A} (body : M A) (h : exn → M A) :
  (∀ e, returns (h e)) → returns (try_except body (except_Exception h)).
Proof.
  intros Hh st. unfold try_except, except_Exception.
  destruct (body st) as [[a|e] st']; simpl; [by exists a | apply Hh].
Qed.

Lemma grows_ret {A} (a : A) : grows (mret a : M A).
Proof. intros st. exists []. by rewrite app_nil_r. Qed.

Lemma grows_raise {A} e : grows (raise e : M A).
Proof. intros st. exists []. by rewrite app_nil_r. Qed.

Lemma grows_logger lvl msg : grows (logger lvl msg).
Proof. intros st. exists []. by rewrite app_nil_r. Qed.

Lemma grows_external c : grows (external c).
Proof. intros st. by exists [c]. Qed.

Lemma grows_answer o : grows (answer o).
Proof. destruct o; [apply grows_raise | apply grows_ret]. Qed.

Lemma grows_bind {A B} (m : M A) (k : A → M B) :
  grows m → (∀ a, grows (k a)) → grows (m ≫= k).
Proof.
  intros Hm Hk st. unfold mbind, M_bind. destruct (Hm st) as [cs Hcs].
  destruct (m st) as [[a|e] st']; simpl in *; [|by exists cs].
  destruct (Hk a st') as [cs' Hcs']. exists (cs ++ cs').
  by rewrite Hcs', Hcs, app_assoc.
Qed.

Lemma grows_try {A} (body : M A) handler :
  grows body →
  (∀ e h, handler e = Some h → grows h) →
  grows (try_except body handler).
Proof.
  intros Hb Hh st. unfold try_except. destruct (Hb st) as [cs Hcs].
  destruct (body st) as [[a|e] st']; simpl in *; [by exists cs|].
  destruct (handler e) as [h|] eqn:E; [|by exists cs].
  destruct (Hh e h E st') as [cs' Hcs']. exists (cs ++ cs').
  by rewrite Hcs', Hcs, app_assoc.
Qed.

Lemma starts_external c : starts c (external c).
Proof. intros st. by exists []. Qed.

Lemma starts_bind {A B} c (m : M A) (k : A → M B) :
  starts c m → (∀ a, grows (k a)) → starts c (m ≫= k).
Proof.
  intros Hm Hk st. unfold mbind, M_bind. destruct (Hm st) as [cs Hcs].
  destruct (m st) as [[a|e] st']; simpl in *; [|by exists cs].
  destruct (Hk a st') as [cs' Hcs']. exists (cs ++ cs').
  by rewrite Hcs', Hcs, <- app_assoc.
Qed.

Lemma starts_try {A} c (body : M A) handler :
  starts c body →
  (∀ e h, handler e = Some h → grows h) →
  starts c (try_except body handler).
Proof.
  intros Hb Hh st. unfold try_except. destruct (Hb st) as [cs Hcs].
  destruct (body st) as [[a|e] st']; simpl in *; [by exists cs|].
  destruct (handler e) as [h|] eqn:E; [|by exists cs].
  destruct (Hh e h E st') as [cs' Hcs']. exists (cs ++ cs').
  by rewrite Hcs', Hcs, <- app_assoc.
Qed.

#[export] Hint Resolve returns_ret returns_logger : frame.
#[export] Hint Resolve grows_ret grows_raise grows_logger grows_external
  grows_answer : frame.

(** Walk through a computation built from binds, conditionals and matches,
    closing the leaves with the [frame] hints. *)
Ltac frame :=
  repeat match goal with
    | |- ∀ _, _ => intro
    | |- keeps_seen (_ ≫= _) => apply keeps_seen_bind
    | |- grows (_ ≫= _) => apply grows_bind
    | |- returns (_ ≫= _) => apply returns_bind
    | |- keeps_seen (if ?b then _ else _) => destruct b
    | |- grows (if ?b then _ else _) => destruct b
    | |- returns (if ?b then _ else _) => destruct b
    | |- keeps_seen (match ?x with _ => _ end) => destruct x
    | |- grows (match ?x with _ => _ end) => destruct x
    | |- returns (match ?x with _ => _ end) => destruct x
    | |- _ => solve [auto with frame]
    end.

(** ** The reply path: [send_message] *)

Section Replies.
Context (world : World).

(** The three ways a post can end. *)
Lemma send_message_eq channel text thread_ts st :
  send_message world channel text thread_ts st =
    let st' := call_record (chat_postMessage channel text thread_ts) st in
    match post_answer world (calls st) channel text thread_ts with
    | None => (Return (), st')
    | Some (SlackApiError _ error) =>
        (Return (), log_record ERROR ("Error sending message: " +:+ error) st')
    | Some (Exception msg) => (Raise (Exception msg), st')
    end.
Proof.
  unfold send_message, try_except, client_chat_postMessage, mbind, M_bind.
  simpl. by destruct (post_answer _ _ _ _ _) as [[]|].
Qed.

Lemma send_message_calls channel text thread_ts st :
  calls (snd (send_message world channel text thread_ts st)) =
    calls st ++ [chat_postMessage channel text thread_ts].
Proof.
  rewrite send_message_eq. simpl.
  by destruct (post_answer _ _ _ _ _) as [[]|].
Qed.

Lemma keeps_seen_send_message channel text thread_ts :
  keeps_seen (send_message world channel text thread_ts).
Proof.
  intros st. rewrite send_message_eq. simpl.
  by destruct (post_answer _ _ _ _ _) as [[]|].
Qed.

Lemma grows_send_message channel text thread_ts :
  grows (send_message world channel text thread_ts).
Proof. intros st. eexists. apply send_message_calls. Qed.

End Replies.

#[export] Hint Resolve keeps_seen_send_message grows_send_message : frame.

(** ** The delegation path: [run_agent] *)

Section Delegation.
Context (world : World) (self : SlackBot).

Lemma run_agent_eq task st :
  run_agent world self task st =
    match run_agent_attempt world self task st with
    | (Return m, st') => (Return m, st')
    | (Raise e, st') => (Return (error_text e), log_record ERROR (error_text e) st')
    end.
Proof.
  unfold run_agent, try_except, except_Exception.
  by destruct (run_agent_attempt _ _ _ _) as [[m|e] st'].
Qed.

Lemma returns_run_agent task : returns (run_agent world self task).
Proof. apply returns_try_Exception. frame. Qed.

Lemma run_agent_returns task st :
  ∃ msg st', run_agent world self task st = (Return msg, st').
Proof.
  destruct (returns_run_agent task st) as [msg H].
  destruct (run_agent _ _ _ _) as [r st'] eqn:E. simpl in H. subst.
  by exists msg, st'.
Qed.

Lemma keeps_seen_run_agent task : keeps_seen (run_agent world self task).
Proof.
  apply keeps_seen_try.
  - unfold run_agent_attempt, Browser, Agent, agent_run, index_last, index_first.
    frame.
  - intros e h [= <-]. frame.
Qed.

Lemma grows_run_agent task : grows (run_agent world self task).
Proof.
  apply grows_try.
  - unfold run_agent_attempt, Browser, Agent, agent_run, index_last, index_first.
    frame.
  - intros e h [= <-]. frame.
Qed.

(** What the [try] block does when both constructors succeed and the run
    returns a history. *)
Lemma attempt_run_returned task st r :
  browser_answer world (calls st) = None →
  agent_answer world (calls st ++ [Browser_new]) task = None →
  run_answer world (calls st ++ [Browser_new; Agent_new task]) task (max_steps self) = inr r →
  let st' := call_record (Agent_run (max_steps self))
               (call_record (Agent_new task) (call_record Browser_new st)) in
  run_agent_attempt world self task st =
    if Views.is_done r then
      match last (Views.history r) with
      | None => (Raise (Exception "list index out of range"), st')
      | Some step =>
          match head (Views.result step) with
          | None => (Raise (Exception "list index out of range"), st')
          | Some res => (Return (default no_result (Views.extracted_content res)), st')
          end
      end
    else (Return no_result, st').
Proof.
  intros Hb Ha Hr.
  unfold run_agent_attempt, Browser, Agent, agent_run, mbind, M_bind. simpl.
  rewrite Hb. simpl. rewrite Ha. simpl.
  rewrite <- app_assoc. simpl. rewrite Hr. simpl.
  destruct (Views.is_done r); [|done].
  unfold index_last, index_first.
  destruct (last _) as [step|]; [|done]. simpl.
  destruct (head _) as [res|]; [|done]. simpl.
  by destruct (Views.extracted_content res).
Qed.

(** ... and when the run raises. *)
Lemma attempt_run_raised task st e :
  browser_answer world (calls st) = None →
  agent_answer world (calls st ++ [Browser_new]) task = None →
  run_answer world (calls st ++ [Browser_new; Agent_new task]) task (max_steps self) = inl e →
  run_agent_attempt world self task st =
    (Raise e, call_record (Agent_run (max_steps self))
                (call_record (Agent_new task) (call_record Browser_new st))).
Proof.
  intros Hb Ha Hr.
  unfold run_agent_attempt, Browser, Agent, agent_run, mbind, M_bind. simpl.
  rewrite Hb. simpl. rewrite Ha. simpl.
  rewrite <- app_assoc. simpl. by rewrite Hr.
Qed.

End Delegation.

#[export] Hint Resolve keeps_seen_run_agent grows_run_agent returns_run_agent : frame.

(** ** Command handling *)

Section Commands.
Context (world : World) (self : SlackBot).

Lemma keeps_seen_handle_command text user_id channel thread_ts :
  keeps_seen (_handle_command world self text user_id channel thread_ts).
Proof.
  unfold _handle_command, handle_task, acknowledge, run_and_reply, report_error.
  destruct (PyStr.in_list _ _); [auto with frame|].
  apply keeps_seen_bind.
  - destruct (ack self); [|auto with frame].
    apply keeps_seen_try; [auto with frame|]. intros e h [= <-]. frame.
  - intros _. apply keeps_seen_try; [frame|]. intros e h [= <-]. frame.
Qed.

Lemma grows_acknowledge task user_id channel thread_ts :
  grows (acknowledge world self task user_id channel thread_ts).
Proof.
  unfold acknowledge. destruct (ack self); [|auto with frame].
  apply grows_try; [auto with frame|]. intros e h [= <-]. frame.
Qed.

Lemma returns_acknowledge task user_id channel thread_ts :
  returns (acknowledge world self task user_id channel thread_ts).
Proof.
  unfold acknowledge. destruct (ack self); [|auto with frame].
  apply returns_try_Exception. frame.
Qed.

(** The agent block, branch by branch: [run_agent] returns its message,
    the reply is posted, and the [except] branch runs exactly when posting
    the reply raised. *)
Lemma run_and_reply_eq task user_id channel thread_ts st :
  ∃ agent_message st1,
    run_agent world self task st = (Return agent_message, st1) ∧
    run_and_reply world self task user_id channel thread_ts st =
      match post_answer world (calls st1) channel
              (completed_text user_id agent_message) thread_ts with
      | Some (Exception msg) =>
          report_error world (Exception msg) channel thread_ts
            (call_record
               (chat_postMessage channel (completed_text user_id agent_message) thread_ts)
               st1)
      | _ => send_message world channel (completed_text user_id agent_message)
               thread_ts st1
      end.
Proof.
  destruct (run_agent_returns world self task st) as (agent_message & st1 & Hrun).
  exists agent_message, st1. split; [done|].
  unfold run_and_reply, try_except, except_Exception, mbind, M_bind.
  rewrite Hrun, send_message_eq. simpl.
  by destruct (post_answer _ _ _ _ _) as [[m c|m]|].
Qed.

(** The posts of the agent block: after [run_agent] has returned its
    message, the reply in the "Task completed" format, and after it the
    bare error report exactly when posting the reply raised. *)
Lemma run_and_reply_calls task user_id channel thread_ts st :
  ∃ agent_message st1,
    run_agent world self task st = (Return agent_message, st1) ∧
    calls (snd (run_and_reply world self task user_id channel thread_ts st)) =
      calls st1 ++
      chat_postMessage channel (completed_text user_id agent_message) thread_ts ::
      match post_answer world (calls st1) channel
              (completed_text user_id agent_message) thread_ts with
      | Some (Exception msg) =>
          [chat_postMessage channel (error_text (Exception msg)) thread_ts]
      | _ => []
      end.
Proof.
  destruct (run_agent_returns world self task st) as (agent_message & st1 & Hrun).
  exists agent_message, st1. split; [done|].
  unfold run_and_reply, try_except, except_Exception, mbind, M_bind.
  rewrite Hrun, send_message_eq. simpl.
  destruct (post_answer _ _ _ _ _) as [[m c|m]|]; simpl; try done.
  unfold report_error, mbind, M_bind. simpl.
  rewrite send_message_calls. simpl. by rewrite <- app_assoc.
Qed.

Lemma grows_run_and_reply task user_id channel thread_ts :
  grows (run_and_reply world self task user_id channel thread_ts).
Proof.
  unfold run_and_reply, report_error.
  apply grows_try; [frame|]. intros e h [= <-]. frame.
Qed.

(** The agent block always reaches the [Browser] constructor. *)
Lemma starts_run_and_reply task user_id channel thread_ts :
  starts Browser_new (run_and_reply world self task user_id channel thread_ts).
Proof.
  unfold run_and_reply, report_error, run_agent, run_agent_attempt.
  apply starts_try; [|intros e h [= <-]; frame].
  apply starts_bind; [|frame].
  apply starts_try; [|intros e h [= <-]; frame].
  apply starts_bind.
  - unfold Browser. apply starts_bind; [apply starts_external | frame].
  - unfold Agent, agent_run, index_last, index_first. frame.
Qed.

End Commands.

#[export] Hint Resolve keeps_seen_handle_command grows_acknowledge
  returns_acknowledge grows_run_and_reply : frame.

(** ** Event handling *)

Section Events.
Context (world : World) (self : SlackBot).

Lemma truthy_VStr s : truthy (VStr s) = negb (bool_decide (s = "")).
Proof.
  simpl. destruct (String.eqb_spec s "");
    [by rewrite bool_decide_true | by rewrite bool_decide_false].
Qed.

Lemma keeps_seen_is_command text : keeps_seen (is_command self text).
Proof. unfold is_command. frame. Qed.

Lemma grows_is_command text : grows (is_command self text).
Proof. unfold is_command. frame. Qed.

(** [_handle_event] unfolded along its two early exits. *)
Lemma handle_event_eq event event_id st :
  _handle_event world self event event_id st =
    let st1 := log_record INFO ("Received event id: " +:+ event_id) st in
    if bool_decide (event_id = "") then
      (Return (), log_record WARNING "Event ID missing in event data" st1)
    else if bool_decide (event_id ∈ processed_events st) then
      (Return (), log_record INFO ("Event " +:+ event_id +:+ " already processed") st1)
    else
      try_except (process_new world self event)
        (except_Exception (λ e, logger ERROR ("Error in handle_event: " +:+ exn_str e)))
        (seen_record event_id st1).
Proof.
  unfold _handle_event, try_except at 1. unfold mbind at 1, M_bind at 1.
  cbn [logger]. rewrite truthy_VStr, negb_involutive.
  case_bool_decide; [done|].
  unfold mbind at 1, M_bind at 1, deduplicate. cbn [processed_events log_record].
  case_bool_decide; [done|].
  cbn [negb].
  unfold try_except, except_Exception.
  by destruct (process_new _ _ event _) as [[[]|e] st'].
Qed.

Lemma keeps_seen_process_new event : keeps_seen (process_new world self event).
Proof.
  unfold process_new. pose proof keeps_seen_is_command.
  frame.
Qed.

Lemma returns_handle_event event event_id st :
  fst (_handle_event world self event event_id st) = Return ().
Proof.
  rewrite handle_event_eq. cbn zeta.
  repeat case_bool_decide; try done.
  unfold try_except, except_Exception.
  by destruct (process_new _ _ event _) as [[[]|e] st'].
Qed.

(** The seen-set after one delivery. *)
Lemma handle_event_seen event event_id st :
  processed_events (snd (_handle_event world self event event_id st)) =
    if bool_decide (event_id = "") then processed_events st
    else {[event_id]} ∪ processed_events st.
Proof.
  rewrite handle_event_eq. cbn zeta.
  case_bool_decide; [done|].
  case_bool_decide; [simpl; set_solver|].
  rewrite keeps_seen_try; [done | apply keeps_seen_process_new |].
  intros e h [= <-]. frame.
Qed.

(** A delivery whose identifier is missing or already seen makes no
    call. *)
Lemma handle_event_dropped event event_id st :
  event_id = "" ∨ event_id ∈ processed_events st →
  calls (snd (_handle_event world self event event_id st)) = calls st.
Proof.
  intros Hid. rewrite handle_event_eq. cbn zeta.
  case_bool_decide; [done|].
  case_bool_decide; [done|]. naive_solver.
Qed.

(** The seen-set after a session. *)
Lemma handle_events_seen (ds : list delivery) st :
  processed_events (handle_events world self ds st) =
    processed_events st ∪ list_to_set (filter (λ i, i ≠ "") ds.*2).
Proof.
  revert st. induction ds as [|[event event_id] ds IH]; intros st; simpl.
  - set_solver.
  - rewrite IH, handle_event_seen. rewrite filter_cons. simpl.
    case_bool_decide; case_decide; try done; set_solver.
Qed.

Lemma handle_events_seen_mono (ds : list delivery) st event_id :
  event_id ∈ processed_events st →
  event_id ∈ processed_events (handle_events world self ds st).
Proof. rewrite handle_events_seen. set_solver. Qed.

End Events.

(** * The claims *)

(** ** Deduplication *)

(** Spec section 8, property 7: the same notification delivered twice
    yields one acknowledgment and one delegation. *)
Example twice_delivered_once_run :
  calls (handle_events (Scenario.world Scenario.delivered (inr (Scenario.finished (Some "Top story: X"))))
           Scenario.bot
           [(Scenario.message "U1" "$bu find the top story on example.com", "E1");
            (Scenario.message "U1" "$bu find the top story on example.com", "E1")]
           init_state) =
    [chat_postMessage (VStr "C1")
       (ack_text (VStr "U1") "find the top story on example.com") (VStr "T1");
     Browser_new;
     Agent_new "find the top story on example.com";
     Agent_run 100;
     chat_postMessage (VStr "C1")
       (completed_text (VStr "U1") "Top story: X") (VStr "T1")].
Proof. vm_compute. reflexivity. Qed.

(** C1: the duplicate filter admits an identifier exactly when it has not
    been seen and records it; after that, whatever the session handles in
    between, the filter rejects the identifier without touching the
    seen-set or making a call, and [_handle_event] with that identifier
    returns without making a call.  The seen-set of a session is the set
    of the non-empty identifiers delivered so far, so the first delivery of
    an identifier is the one that is admitted. *)
Theorem dedup_exactly_once (world : World) (self : SlackBot)
    (event_id : string) (st : bot_state) (ds : list delivery)
    (event : gmap string pyval) :
  fst (deduplicate event_id st) = Return (negb (bool_decide (event_id ∈ processed_events st))) ∧
  processed_events (snd (deduplicate event_id st)) = {[event_id]} ∪ processed_events st ∧
  processed_events (handle_events world self ds st) =
    processed_events st ∪ list_to_set (filter (λ i, i ≠ "") ds.*2) ∧
  let later := handle_events world self ds (snd (deduplicate event_id st)) in
  fst (deduplicate event_id later) = Return false ∧
  processed_events (snd (deduplicate event_id later)) = processed_events later ∧
  calls (snd (deduplicate event_id later)) = calls later ∧
  fst (_handle_event world self event event_id later) = Return () ∧
  processed_events (snd (_handle_event world self event event_id later)) =
    processed_events later ∧
  calls (snd (_handle_event world self event event_id later)) = calls later.
Proof.
  assert (event_id ∈ processed_events (snd (deduplicate event_id st))) as Hin.
  { unfold deduplicate. case_bool_decide; simpl; set_solver. }
  split; [unfold deduplicate; by case_bool_decide|].
  split; [unfold deduplicate; case_bool_decide; simpl; set_solver|].
  split; [apply handle_events_seen|].
  intros later.
  assert (event_id ∈ processed_events later) as Hlater
    by by apply handle_events_seen_mono.
  assert (deduplicate event_id later =
            (Return false,
             log_record INFO ("Event " +:+ event_id +:+ " already processed") later))
    as ->.
  { unfold deduplicate. by rewrite bool_decide_true. }
  split_and!; try done.
  - apply returns_handle_event.
  - rewrite handle_event_seen. case_bool_decide; [done|]. set_solver.
  - apply handle_event_dropped. by right.
Qed.

Section Dispatch.
Context (world : World) (self : SlackBot).

(** A bot message stops [process_new] before the text is read. *)
Lemma process_new_bot_message event :
  event !! "subtype" = Some (VStr "bot_message") →
  process_new world self event = mret ().
Proof.
  intros Hsub. unfold process_new. rewrite Hsub. simpl.
  by destruct (eq_str (dict_get event "type") "message").
Qed.

(** Without a sender or a channel nothing is dispatched. *)
Lemma process_new_incomplete event st :
  dict_get event "user" = VNone ∨ dict_get event "channel" = VNone →
  calls (snd (try_except (process_new world self event)
                (except_Exception (λ e,
                   logger ERROR ("Error in handle_event: " +:+ exn_str e))) st)) =
    calls st.
Proof.
  intros Hmissing. unfold process_new, try_except, except_Exception.
  destruct (negb _); [done|].
  destruct (match event !! "subtype" with Some _ => _ | None => _ end); [done|].
  cbn zeta.
  replace (is_not_None (dict_get event "user") && is_not_None (dict_get event "channel"))
    with false
    by (destruct Hmissing as [-> | ->]; simpl; by rewrite ?andb_false_r).
  unfold is_command, mbind, M_bind.
  destruct (dict_get_default event "text" (VStr "")) as [|[]|z|s]; simpl; try done.
  - by destruct (negb (z =? 0)%Z).
  - destruct (negb (String.eqb s "")); simpl; [|done].
    rewrite <- andb_assoc.
    replace (is_not_None (dict_get event "user") && is_not_None (dict_get event "channel"))
      with false
      by (destruct Hmissing as [-> | ->]; simpl; by rewrite ?andb_false_r).
    rewrite andb_false_r.
    by destruct (PyStr.startswith s _).
Qed.

(** A complete message whose text is a command reaches
    [_handle_command]. *)
Lemma process_new_command event text :
  eq_str (dict_get event "type") "message" = true →
  (∀ subtype, event !! "subtype" = Some subtype → eq_str subtype "bot_message" = false) →
  dict_get_default event "text" (VStr "") = VStr text →
  PyStr.startswith text (command_prefix self +:+ " ") = true →
  is_not_None (dict_get event "user") = true →
  is_not_None (dict_get event "channel") = true →
  ∀ st, process_new world self event st =
          _handle_command world self text (dict_get event "user")
            (dict_get event "channel") (dict_get event "ts") st.
Proof.
  intros Htype Hsub Htext Hpre Huser Hchan st. unfold process_new.
  rewrite Htype. simpl.
  replace (match event !! "subtype" with Some s => eq_str s "bot_message" | None => false end)
    with false by (destruct (event !! "subtype") as [v|]; [by rewrite (Hsub v)|done]).
  rewrite Htext, Huser, Hchan.
  unfold is_command, mbind, M_bind. simpl.
  assert (text ≠ "") as Hne.
  { intros ->. by destruct (command_prefix self). }
  destruct (String.eqb_spec text ""); [done|]. simpl.
  by rewrite Hpre.
Qed.

End Dispatch.

(** C8: for a non-empty identifier, the identifier is in the seen-set
    after the delivery whatever the event holds; an event that is not a
    message, that is a bot message, or that lacks a sender or a channel
    causes no call and is marked all the same; and any later delivery with
    that identifier, after any session in between, returns without a call
    and without changing the seen-set. *)
Theorem seen_before_examined (world : World) (self : SlackBot)
    (event : gmap string pyval) (event_id : string) (st : bot_state) :
  event_id ≠ "" →
  let st1 := snd (_handle_event world self event event_id st) in
  processed_events st1 = {[event_id]} ∪ processed_events st ∧
  (eq_str (dict_get event "type") "message" = false ∨
   event !! "subtype" = Some (VStr "bot_message") ∨
   dict_get event "user" = VNone ∨
   dict_get event "channel" = VNone →
   calls st1 = calls st) ∧
  ∀ (ds : list delivery) (event' : gmap string pyval),
    let later := handle_events world self ds st1 in
    event_id ∈ processed_events later ∧
    fst (_handle_event world self event' event_id later) = Return () ∧
    processed_events (snd (_handle_event world self event' event_id later)) =
      processed_events later ∧
    calls (snd (_handle_event world self event' event_id later)) = calls later.
Proof.
  intros Hid st1.
  assert (processed_events st1 = {[event_id]} ∪ processed_events st) as Hseen.
  { subst st1. rewrite handle_event_seen. by rewrite bool_decide_false. }
  split; [done|]. split.
  - intros Hquiet. subst st1. rewrite handle_event_eq. cbn zeta.
    rewrite bool_decide_false by done.
    case_bool_decide; [done|].
    destruct Hquiet as [Htype | [Hsub | Hmissing]].
    + unfold process_new, try_except. by rewrite Htype.
    + by rewrite process_new_bot_message.
    + by rewrite process_new_incomplete.
  - intros ds event' later.
    assert (event_id ∈ processed_events later) as Hlater.
    { apply handle_events_seen_mono. rewrite Hseen. set_solver. }
    split_and!; [done | apply returns_handle_event | |].
    + rewrite handle_event_seen. rewrite bool_decide_false by done. set_solver.
    + apply handle_event_dropped. by right.
Qed.

Lemma seen_before_examined_witness :
  let world := Scenario.world Scenario.delivered (inr (Scenario.finished None)) in
  let event : gmap string pyval := <["type" := VStr "channel_created"]> ∅ in
  let st1 := snd (_handle_event world Scenario.bot event "E7" init_state) in
  "E7" ∈ processed_events st1 ∧
  calls st1 = [] ∧
  calls (snd (_handle_event world Scenario.bot
                (Scenario.message "U1" "$bu help") "E7" st1)) = [].
Proof.
  intros world event st1.
  destruct (seen_before_examined world Scenario.bot event "E7" init_state)
    as (Hseen & Hquiet & Hlater); [done|].
  fold st1 in Hseen, Hquiet, Hlater.
  split; [|split].
  - rewrite Hseen. set_solver.
  - apply Hquiet. by left.
  - destruct (Hlater [] (Scenario.message "U1" "$bu help")) as (_ & _ & _ & Hcalls).
    simpl in Hcalls. rewrite Hcalls. apply Hquiet. by left.
Defined.

(** ** Bot messages *)

(** C4, as stated, fails for the bot's own identity: the program keeps no
    record of who the bot is, and a message sent by the bot's user that
    carries no bot-message subtype is parsed and answered like any other. *)
Lemma own_message_reaches_parser :
  let bot_user_id := "UBOT" in
  let event := Scenario.message bot_user_id "$bu help" in
  dict_get event "user" = VStr bot_user_id ∧
  calls (snd (_handle_event
                (Scenario.world Scenario.delivered (inr (Scenario.finished None)))
                Scenario.bot event "E1" init_state)) =
    [chat_postMessage (VStr "C1") (help_text Scenario.bot) (VStr "T1")].
Proof. split; vm_compute; reflexivity. Qed.

(** C4, amended: a notification whose subtype is the bot-message marker
    never reaches the command parser.  The part of the handler that reads
    the text returns at once, the handler returns without a call, and its
    outcome does not depend on any other field of the event. *)
Theorem bot_message_never_parsed (world : World) (self : SlackBot)
    (event : gmap string pyval) (event_id : string) (st : bot_state) :
  event !! "subtype" = Some (VStr "bot_message") →
  process_new world self event = mret () ∧
  fst (_handle_event world self event event_id st) = Return () ∧
  calls (snd (_handle_event world self event event_id st)) = calls st ∧
  ∀ (key : string) (value : pyval),
    key ≠ "subtype" →
    _handle_event world self (<[key := value]> event) event_id st =
      _handle_event world self event event_id st.
Proof.
  intros Hsub.
  split; [by apply process_new_bot_message|].
  split; [apply returns_handle_event|].
  split.
  - rewrite handle_event_eq. cbn zeta.
    repeat case_bool_decide; try done.
    by rewrite process_new_bot_message.
  - intros key value Hkey. rewrite !handle_event_eq.
    rewrite !process_new_bot_message; [done | done |].
    by rewrite lookup_insert_ne.
Qed.

Lemma bot_message_never_parsed_witness :
  let event := <["subtype" := VStr "bot_message"]> (Scenario.message "B1" "$bu help") in
  calls (snd (_handle_event
                (Scenario.world Scenario.delivered (inr (Scenario.finished None)))
                Scenario.bot event "E2" init_state)) = [].
Proof.
  intros event.
  apply (bot_message_never_parsed
           (Scenario.world Scenario.delivered (inr (Scenario.finished None)))
           Scenario.bot event "E2" init_state).
  reflexivity.
Defined.

(** ** Command classification *)

Lemma length_append (s1 s2 : string) :
  String.length (s1 +:+ s2) = String.length s1 + String.length s2.
Proof. induction s1 as [|c s1 IH]; simpl; by rewrite ?IH. Qed.

Lemma startswith_nonempty (s p : string) :
  PyStr.startswith s (p +:+ " ") = true → negb (String.eqb s "") = true.
Proof. destruct s; [by destruct p | done]. Qed.

(** Spec section 8, properties 2 to 5. *)
Example parse_help :
  spec_parse "$bu help" "$bu" = Help ∧ spec_parse "$bu --help" "$bu" = Help ∧
  spec_parse "$bu -h" "$bu" = Help ∧ spec_parse "$bu HELP" "$bu" = Help.
Proof. by vm_compute. Qed.

Example parse_task :
  spec_parse "$bu go to example.com" "$bu" = Task "go to example.com".
Proof. by vm_compute. Qed.

Example parse_ignore : spec_parse "hello world" "$bu" = Ignore.
Proof. by vm_compute. Qed.

Example parse_empty_task : spec_parse "$bu   " "$bu" = Task "".
Proof. by vm_compute. Qed.

(** The empty task is handed to the agent. *)
Example empty_task_forwarded :
  calls (snd (_handle_event
                (Scenario.world Scenario.delivered (inr (Scenario.finished None)))
                Scenario.terse_bot (Scenario.message "U1" "$bu   ") "E3" init_state)) =
    [Browser_new; Agent_new ""; Agent_run 100;
     chat_postMessage (VStr "C1") (completed_text (VStr "U1") no_result) (VStr "T1")].
Proof. by vm_compute. Qed.

(** ** Delegation *)

(** Spec section 8, property 9, at the level of [run_agent]. *)
Example network_timeout_text :
  fst (run_agent (Scenario.world Scenario.delivered (inl (Exception "network timeout")))
         Scenario.bot "find it" init_state) =
    Return "Error during task execution: network timeout".
Proof. by vm_compute. Qed.

(** C3: [run_agent] never raises.  It always returns a string; when its
    [try] block raises [e], for whatever reason, the string is the error
    text carrying [str(e)]; in particular so when the agent run raises,
    and when a run reported done has no step or no result to read. *)
Theorem run_agent_never_raises (world : World) (self : SlackBot)
    (task : string) (st : bot_state) :
  (∃ msg st', run_agent world self task st = (Return msg, st')) ∧
  (∀ e st', run_agent_attempt world self task st = (Raise e, st') →
     fst (run_agent world self task st) =
       Return ("Error during task execution: " +:+ exn_str e)) ∧
  (browser_answer world (calls st) = None →
   agent_answer world (calls st ++ [Browser_new]) task = None →
   (∀ e, run_answer world (calls st ++ [Browser_new; Agent_new task]) task
           (max_steps self) = inl e →
      fst (run_agent world self task st) =
        Return ("Error during task execution: " +:+ exn_str e)) ∧
   (∀ r, run_answer world (calls st ++ [Browser_new; Agent_new task]) task
           (max_steps self) = inr r →
      Views.is_done r = true →
      (last (Views.history r) ≫= λ step, head (Views.result step)) = None →
      fst (run_agent world self task st) =
        Return "Error during task execution: list index out of range")).
Proof.
  split; [apply run_agent_returns|]. split.
  - intros e st' Hraise. by rewrite run_agent_eq, Hraise.
  - intros Hb Ha. split.
    + intros e Hr. by rewrite run_agent_eq, (attempt_run_raised _ _ _ _ e).
    + intros r Hr Hdone Hnone.
      rewrite run_agent_eq, (attempt_run_returned _ _ _ _ r), Hdone by done.
      destruct (last _) as [step|]; [|done]. simpl in Hnone. by rewrite Hnone.
Qed.

Lemma run_agent_never_raises_witness :
  fst (run_agent (Scenario.world Scenario.delivered (inl (Exception "network timeout")))
         Scenario.bot "find it" init_state) =
    Return "Error during task execution: network timeout" ∧
  fst (run_agent (Scenario.world Scenario.delivered (inr Scenario.hollow))
         Scenario.bot "find it" init_state) =
    Return "Error during task execution: list index out of range".
Proof.
  split.
  - apply (proj1 (proj2 (proj2
             (run_agent_never_raises
                (Scenario.world Scenario.delivered (inl (Exception "network timeout")))
                Scenario.bot "find it" init_state))
             eq_refl eq_refl) (Exception "network timeout")).
    reflexivity.
  - apply (proj2 (proj2 (proj2
             (run_agent_never_raises
                (Scenario.world Scenario.delivered (inr Scenario.hollow))
                Scenario.bot "find it" init_state))
             eq_refl eq_refl) Scenario.hollow); reflexivity.
Defined.

(** C6: when the constructors succeed and the run returns a history that
    reports done, [run_agent] returns the extracted content of the first
    result of the last step, or the fixed fallback string when that result
    has no extracted content. *)
Theorem run_agent_extracts (world : World) (self : SlackBot) (task : string)
    (st : bot_state) (r : AgentHistoryList) (step : AgentHistory)
    (res : ActionResult) :
  browser_answer world (calls st) = None →
  agent_answer world (calls st ++ [Browser_new]) task = None →
  run_answer world (calls st ++ [Browser_new; Agent_new task]) task (max_steps self) = inr r →
  Views.is_done r = true →
  last (Views.history r) = Some step →
  head (Views.result step) = Some res →
  fst (run_agent world self task st) =
    Return (match Views.extracted_content res with
            | Some content => content
            | None => "Task completed, but no specific result was returned."
            end).
Proof.
  intros Hb Ha Hr Hdone Hstep Hres.
  rewrite run_agent_eq, (attempt_run_returned _ _ _ _ r) by done.
  rewrite Hdone, Hstep, Hres. simpl.
  by destruct (Views.extracted_content res).
Qed.

Lemma run_agent_extracts_witness :
  fst (run_agent (Scenario.world Scenario.delivered
                    (inr (Scenario.finished (Some "Top story: X"))))
         Scenario.bot "find it" init_state) = Return "Top story: X" ∧
  fst (run_agent (Scenario.world Scenario.delivered (inr (Scenario.finished None)))
         Scenario.bot "find it" init_state) =
    Return "Task completed, but no specific result was returned.".
Proof.
  split.
  - apply (run_agent_extracts
             (Scenario.world Scenario.delivered
                (inr (Scenario.finished (Some "Top story: X"))))
             Scenario.bot "find it" init_state
             (Scenario.finished (Some "Top story: X"))
             {| Views.result := [ {| Views.extracted_content := Some "Top story: X" |} ] |}
             {| Views.extracted_content := Some "Top story: X" |});
      reflexivity.
  - apply (run_agent_extracts
             (Scenario.world Scenario.delivered (inr (Scenario.finished None)))
             Scenario.bot "find it" init_state
             (Scenario.finished None)
             {| Views.result := [ {| Views.extracted_content := None |} ] |}
             {| Views.extracted_content := None |});
      reflexivity.
Defined.

(** C9: when the constructors succeed and the run returns a history that
    does not report done, [run_agent] returns the fixed fallback string,
    whatever the history holds. *)
Theorem run_agent_unfinished (world : World) (self : SlackBot) (task : string)
    (st : bot_state) (r : AgentHistoryList) :
  browser_answer world (calls st) = None →
  agent_answer world (calls st ++ [Browser_new]) task = None →
  run_answer world (calls st ++ [Browser_new; Agent_new task]) task (max_steps self) = inr r →
  Views.is_done r = false →
  fst (run_agent world self task st) =
    Return "Task completed, but no specific result was returned.".
Proof.
  intros Hb Ha Hr Hdone.
  rewrite run_agent_eq, (attempt_run_returned _ _ _ _ r) by done.
  by rewrite Hdone.
Qed.

Lemma run_agent_unfinished_witness :
  fst (run_agent (Scenario.world Scenario.delivered (inr Scenario.unfinished))
         Scenario.bot "find it" init_state) =
    Return "Task completed, but no specific result was returned.".
Proof.
  apply (run_agent_unfinished
           (Scenario.world Scenario.delivered (inr Scenario.unfinished))
           Scenario.bot "find it" init_state Scenario.unfinished);
    reflexivity.
Defined.

(** ** Replies *)

Lemma startswith_append (p s : string) : PyStr.startswith (p +:+ s) p = true.
Proof.
  induction p as [|c p IH]; [reflexivity|].
  simpl. by rewrite Ascii.eqb_refl.
Qed.

Lemma append_assoc (a b c : string) : (a +:+ b) +:+ c = a +:+ (b +:+ c).
Proof.
  induction a as [|x a IH]; [done|].
  change (String x ((a +:+ b) +:+ c) = String x (a +:+ (b +:+ c))).
  by rewrite IH.
Qed.

(** Spec section 8, property 8. *)
Example success_reply :
  last (calls (snd (_handle_command
                      (Scenario.world Scenario.delivered
                         (inr (Scenario.finished (Some "Top story: X"))))
                      Scenario.bot "$bu find the top story on example.com"
                      (VStr "U1") (VStr "C1") (VStr "T1") init_state))) =
    Some (chat_postMessage (VStr "C1")
            ("<@U1> Task completed:" +:+ PyStr.nl +:+ PyStr.nl +:+ "Top story: X")
            (VStr "T1")).
Proof. by vm_compute. Qed.

(** C5, as stated, fails for the error reply: when posting the result
    raises something other than a [SlackApiError], the handler's [except]
    branch posts the bare error message, which does not begin with a
    mention of the requesting user. *)
Lemma error_reply_lacks_mention :
  let world := Scenario.world (Scenario.fails_after 4 (Exception "connection reset"))
                 (inr (Scenario.finished (Some "Top story: X"))) in
  last (calls (snd (_handle_command world Scenario.bot "$bu find it"
                      (VStr "U1") (VStr "C1") (VStr "T1") init_state))) =
    Some (chat_postMessage (VStr "C1")
            "Error during task execution: connection reset" (VStr "T1")) ∧
  PyStr.startswith "Error during task execution: connection reset" "<@U1>" = false.
Proof. split; by vm_compute. Qed.

(** C5, amended: for every dispatched task, once [run_agent] has returned
    its message (the result, the fallback, or the text of a delegation
    failure), the reply posted is that message behind a mention of the
    requesting user and the label "Task completed:".  The reply of the
    [except] branch, posted only when posting the first reply raised
    something other than a [SlackApiError], is the error message alone. *)
Theorem replies_after_delegation (world : World) (self : SlackBot) (task : string)
    (user_id channel thread_ts : pyval) (st : bot_state) :
  ∃ agent_message st1,
    run_agent world self task st = (Return agent_message, st1) ∧
    let reply := "<@" +:+ py_str user_id +:+ "> Task completed:" +:+
                 PyStr.nl +:+ PyStr.nl +:+ agent_message in
    PyStr.startswith reply ("<@" +:+ py_str user_id +:+ ">") = true ∧
    calls (snd (run_and_reply world self task user_id channel thread_ts st)) =
      calls st1 ++
      chat_postMessage channel reply thread_ts ::
      match post_answer world (calls st1) channel reply thread_ts with
      | Some (Exception msg) =>
          [chat_postMessage channel ("Error during task execution: " +:+ msg) thread_ts]
      | _ => []
      end.
Proof.
  destruct (run_and_reply_calls world self task user_id channel thread_ts st)
    as (agent_message & st1 & Hrun & Hcalls).
  exists agent_message, st1. split; [done|]. cbn zeta. split; [|done].
  replace ("<@" +:+ py_str user_id +:+ "> Task completed:" +:+
           PyStr.nl +:+ PyStr.nl +:+ agent_message)
    with (("<@" +:+ py_str user_id +:+ ">") +:+
          (" Task completed:" +:+ PyStr.nl +:+ PyStr.nl +:+ agent_message)).
  - apply startswith_append.
  - by rewrite !append_assoc.
Qed.

(** C10: when the [try] block of [run_agent] raises [e], the agent run
    raising being one way, [run_agent] returns the error text, and the
    message posted is the "Task completed" reply carrying that text.  The
    handler's [except] branch runs only when posting that reply raised
    something other than a [SlackApiError]; its bare error report then
    carries the text of that exception, not [e]'s. *)
Theorem delegation_failure_reply (world : World) (self : SlackBot) (task : string)
    (user_id channel thread_ts : pyval) (st st1 : bot_state) (e : exn) :
  run_agent_attempt world self task st = (Raise e, st1) →
  let reply := "<@" +:+ py_str user_id +:+ "> Task completed:" +:+
               PyStr.nl +:+ PyStr.nl +:+
               "Error during task execution: " +:+ exn_str e in
  let st2 := log_record ERROR ("Error during task execution: " +:+ exn_str e) st1 in
  run_and_reply world self task user_id channel thread_ts st =
    match post_answer world (calls st1) channel reply thread_ts with
    | Some (Exception msg) =>
        report_error world (Exception msg) channel thread_ts
          (call_record (chat_postMessage channel reply thread_ts) st2)
    | _ => send_message world channel reply thread_ts st2
    end ∧
  calls (snd (run_and_reply world self task user_id channel thread_ts st)) =
    calls st1 ++
    chat_postMessage channel reply thread_ts ::
    match post_answer world (calls st1) channel reply thread_ts with
    | Some (Exception msg) =>
        [chat_postMessage channel ("Error during task execution: " +:+ msg) thread_ts]
    | _ => []
    end.
Proof.
  intros Hraise reply st2. split.
  - destruct (run_and_reply_eq world self task user_id channel thread_ts st)
      as (agent_message & st1' & Hrun & Heq).
    rewrite run_agent_eq, Hraise in Hrun. injection Hrun as <- <-.
    by rewrite Heq.
  - destruct (run_and_reply_calls world self task user_id channel thread_ts st)
      as (agent_message & st1' & Hrun & Hcalls).
    rewrite run_agent_eq, Hraise in Hrun. injection Hrun as <- <-.
    by rewrite Hcalls.
Qed.

Lemma delegation_failure_reply_witness :
  calls (snd (run_and_reply
                (Scenario.world Scenario.delivered (inl (Exception "network timeout")))
                Scenario.bot "find it" (VStr "U1") (VStr "C1") (VStr "T1") init_state)) =
    [Browser_new; Agent_new "find it"; Agent_run 100;
     chat_postMessage (VStr "C1")
       ("<@U1> Task completed:" +:+ PyStr.nl +:+ PyStr.nl +:+
        "Error during task execution: network timeout") (VStr "T1")].
Proof.
  apply (delegation_failure_reply
           (Scenario.world Scenario.delivered (inl (Exception "network timeout")))
           Scenario.bot "find it" (VStr "U1") (VStr "C1") (VStr "T1") init_state
           (call_record (Agent_run 100)
              (call_record (Agent_new "find it") (call_record Browser_new init_state)))
           (Exception "network timeout")).
  reflexivity.
Defined.

Section Swallowing.
Context (world : World) (self : SlackBot).

Lemma returns_send_message channel text thread_ts :
  transport_only world → returns (send_message world channel text thread_ts).
Proof.
  intros Hw st. rewrite send_message_eq. cbn zeta.
  destruct (post_answer _ _ _ _ _) as [e|] eqn:E; [|by exists ()].
  destruct (Hw _ _ _ _ _ E) as (msg & error & ->). by exists ().
Qed.

Lemma returns_handle_command text user_id channel thread_ts :
  transport_only world →
  returns (_handle_command world self text user_id channel thread_ts).
Proof.
  intros Hw. pose proof (returns_send_message) as Hsend.
  unfold _handle_command, handle_task, run_and_reply, report_error.
  destruct (PyStr.in_list _ _); [auto|].
  apply returns_bind; [auto with frame|]. intros _.
  apply returns_try_Exception. intros e.
  apply returns_bind; [auto with frame | auto].
Qed.

End Swallowing.

(** C7: when the client raises a [SlackApiError], [send_message] records
    the failure in the log and returns as if the post had been delivered;
    so does the error report of [_handle_command]; and in a world where
    posts fail in no other way, [_handle_command] always returns. *)
Theorem reply_failure_swallowed (world : World) (self : SlackBot)
    (channel thread_ts : pyval) :
  (∀ text st msg error,
     post_answer world (calls st) channel text thread_ts = Some (SlackApiError msg error) →
     send_message world channel text thread_ts st =
       (Return (),
        log_record ERROR ("Error sending message: " +:+ error)
          (call_record (chat_postMessage channel text thread_ts) st))) ∧
  (∀ e st msg error,
     post_answer world (calls st) channel ("Error during task execution: " +:+ exn_str e)
       thread_ts = Some (SlackApiError msg error) →
     fst (report_error world e channel thread_ts st) = Return ()) ∧
  (transport_only world →
   ∀ text user_id st,
     fst (_handle_command world self text user_id channel thread_ts st) = Return ()).
Proof.
  split; [|split].
  - intros text st msg error Hpost. by rewrite send_message_eq, Hpost.
  - intros e st msg error Hpost.
    unfold report_error, mbind, M_bind. simpl.
    rewrite send_message_eq. simpl. unfold error_text. by rewrite Hpost.
  - intros Hw text user_id st.
    destruct (returns_handle_command world self text user_id channel thread_ts Hw st)
      as [[] H].
    done.
Qed.

Lemma rejecting_transport_only n msg error run :
  transport_only (Scenario.world (Scenario.fails_after n (SlackApiError msg error)) run).
Proof.
  intros before channel text thread_ts e. simpl. unfold Scenario.fails_after.
  destruct (Nat.eqb _ _); [|done]. intros [= <-]. by eexists _, _.
Qed.

Lemma reply_failure_swallowed_witness :
  let rejected := SlackApiError "The request to the Slack API failed." "channel_not_found" in
  let world := Scenario.world (Scenario.fails_after 0 rejected)
                 (inr (Scenario.finished (Some "Top story: X"))) in
  fst (send_message world (VStr "C1") "hello" (VStr "T1") init_state) = Return () ∧
  fst (report_error world (Exception "connection reset") (VStr "C1") (VStr "T1")
         init_state) = Return () ∧
  fst (_handle_command world Scenario.bot "$bu find it" (VStr "U1") (VStr "C1")
         (VStr "T1") init_state) = Return ().
Proof.
  intros rejected world.
  destruct (reply_failure_swallowed world Scenario.bot (VStr "C1") (VStr "T1"))
    as (Hsend & Hreport & Hcommand).
  split; [|split].
  - by rewrite (Hsend "hello" init_state
                  "The request to the Slack API failed." "channel_not_found" eq_refl).
  - apply (Hreport (Exception "connection reset") init_state
             "The request to the Slack API failed." "channel_not_found" eq_refl).
  - apply Hcommand. apply rejecting_transport_only.
Defined.

(** * Further properties of the program *)

(** ** [send_message] and [run_agent] *)

(** X7: [send_message] tries once.  Whatever the client answers, exactly
    one post is made, with the channel, text and thread given, and the
    seen-set is untouched; the call raises exactly when the client raised
    something other than a [SlackApiError], and then raises that very
    exception. *)
Theorem send_message_single_attempt (world : World) (channel : pyval)
    (text : string) (thread_ts : pyval) (st : bot_state) :
  calls (snd (send_message world channel text thread_ts st)) =
    calls st ++ [chat_postMessage channel text thread_ts] ∧
  processed_events (snd (send_message world channel text thread_ts st)) =
    processed_events st ∧
  ∀ e, fst (send_message world channel text thread_ts st) = Raise e ↔
       ∃ msg, e = Exception msg ∧
              post_answer world (calls st) channel text thread_ts = Some (Exception msg).
Proof.
  split; [apply send_message_calls|]. split; [apply keeps_seen_send_message|].
  intros e. rewrite send_message_eq. cbn zeta.
  destruct (post_answer _ _ _ _ _) as [[m c|m]|]; simpl; split;
    try done; try (by intros (msg & _ & [=])).
  - intros [= <-]. by exists m.
  - by intros (msg & -> & [= ->]).
Qed.

(** X6: [run_agent] constructs the browser, then the agent for the task,
    then runs it with the configured step budget, and stops at the first
    of these that raises.  It makes no other call, in particular no post,
    and leaves the seen-set alone. *)
Theorem run_agent_protocol (world : World) (self : SlackBot) (task : string)
    (st : bot_state) :
  calls (snd (run_agent world self task st)) =
    calls st ++
    Browser_new ::
    match browser_answer world (calls st) with
    | Some _ => []
    | None =>
        Agent_new task ::
        match agent_answer world (calls st ++ [Browser_new]) task with
        | Some _ => []
        | None => [Agent_run (max_steps self)]
        end
    end ∧
  processed_events (snd (run_agent world self task st)) = processed_events st.
Proof.
  split; [|apply keeps_seen_run_agent].
  rewrite run_agent_eq.
  unfold run_agent_attempt, Browser, Agent, agent_run, mbind, M_bind. simpl.
  destruct (browser_answer _ _); simpl; [done|].
  destruct (agent_answer _ _ _); simpl; [by rewrite <- app_assoc|].
  destruct (run_answer _ _ _ _) as [e|r]; simpl; [by rewrite <- !app_assoc|].
  destruct (Views.is_done r); simpl; [|by rewrite <- !app_assoc].
  unfold index_last, index_first.
  destruct (last _) as [step|]; simpl; [|by rewrite <- !app_assoc].
  destruct (head _) as [res|]; simpl; by rewrite <- !app_assoc.
Qed.

(** ** Command handling, continued *)

Lemma acknowledge_calls (world : World) (self : SlackBot) task user_id channel thread_ts st :
  calls (snd (acknowledge world self task user_id channel thread_ts st)) =
    calls st ++
    (if ack self then [chat_postMessage channel (ack_text user_id task) thread_ts]
     else []).
Proof.
  unfold acknowledge. destruct (ack self); [|by rewrite app_nil_r].
  unfold try_except, except_Exception. rewrite send_message_eq. cbn zeta.
  by destruct (post_answer _ _ _ _ _) as [[m c|m]|].
Qed.

(** X5: for a command that is not a help request, the acknowledgment, when
    enabled, is the first call, and the [Browser] constructor is the next
    whatever became of the acknowledgment: a failed acknowledgment, of any
    kind, does not keep the task from running.  With the acknowledgment
    disabled the [Browser] constructor is the first call. *)
Theorem acknowledgment_first (world : World) (self : SlackBot) (text : string)
    (user_id channel thread_ts : pyval) (st : bot_state) :
  let task := PyStr.strip
                (PyStr.slice_from (String.length (command_prefix self) + 1) text) in
  PyStr.in_list (PyStr.lower task) ["help"; "--help"; "-h"] = false →
  ∃ cs,
    calls (snd (_handle_command world self text user_id channel thread_ts st)) =
      calls st ++
      (if ack self then [chat_postMessage channel (ack_text user_id task) thread_ts]
       else []) ++
      Browser_new :: cs.
Proof.
  intros task Hhelp. unfold _handle_command. fold task. rewrite Hhelp.
  unfold handle_task, mbind, M_bind.
  pose proof (acknowledge_calls world self task user_id channel thread_ts st) as Hack.
  destruct (returns_acknowledge world self task user_id channel thread_ts st) as [[] Hret].
  destruct (acknowledge _ _ _ _ _ _ _) as [r st1]. simpl in Hret, Hack. subst r.
  destruct (starts_run_and_reply world self task user_id channel thread_ts st1) as [cs Hcs].
  exists cs. by rewrite Hcs, Hack, <- app_assoc.
Qed.

Lemma acknowledgment_first_witness :
  ∃ cs,
    calls (snd (_handle_command
                  (Scenario.world (Scenario.fails_after 0 (Exception "connection reset"))
                     (inr (Scenario.finished (Some "Top story: X"))))
                  Scenario.bot "$bu find it" (VStr "U1") (VStr "C1") (VStr "T1")
                  init_state)) =
      [] ++ [chat_postMessage (VStr "C1") (ack_text (VStr "U1") "find it") (VStr "T1")] ++
      Browser_new :: cs.
Proof.
  apply (acknowledgment_first
           (Scenario.world (Scenario.fails_after 0 (Exception "connection reset"))
              (inr (Scenario.finished (Some "Top story: X"))))
           Scenario.bot "$bu find it" (VStr "U1") (VStr "C1") (VStr "T1") init_state).
  reflexivity.
Defined.

(** ** Event handling, continued *)

(** X4: a message whose text is a command but whose sender or channel is
    missing is not dispatched.  Its identifier is recorded, one error
    record names both fields, a missing one rendered as [None], and no call
    is made. *)
Theorem missing_fields_logged (world : World) (self : SlackBot)
    (event : gmap string pyval) (event_id text : string) (st : bot_state) :
  event_id ≠ "" →
  event_id ∉ processed_events st →
  eq_str (dict_get event "type") "message" = true →
  (∀ subtype, event !! "subtype" = Some subtype → eq_str subtype "bot_message" = false) →
  dict_get_default event "text" (VStr "") = VStr text →
  PyStr.startswith text (command_prefix self +:+ " ") = true →
  dict_get event "user" = VNone ∨ dict_get event "channel" = VNone →
  _handle_event world self event event_id st =
    (Return (),
     log_record ERROR
       ("Missing required fields in event: user_id=" +:+
        py_str (dict_get event "user") +:+ ", channel=" +:+
        py_str (dict_get event "channel"))
       (seen_record event_id
          (log_record INFO ("Received event id: " +:+ event_id) st))).
Proof.
  intros Hid Hnew Htype Hsub Htext Hpre Hmissing.
  rewrite handle_event_eq. cbn zeta.
  rewrite !bool_decide_false by done.
  unfold process_new, try_except, except_Exception. rewrite Htype. cbn [negb].
  replace (match event !! "subtype" with
           | Some s => eq_str s "bot_message" | None => false end)
    with false by (destruct (event !! "subtype") as [v|]; [by rewrite (Hsub v)|done]).
  cbn zeta. rewrite Htext.
  unfold is_command, mbind, M_bind. cbn [truthy].
  rewrite (startswith_nonempty _ _ Hpre), Hpre.
  unfold mret, M_ret. cbn beta iota.
  replace (true && is_not_None (dict_get event "user") &&
           is_not_None (dict_get event "channel")) with false; [done|].
  destruct Hmissing as [-> | ->]; simpl; by rewrite ?andb_false_r.
Qed.

Lemma missing_fields_logged_witness :
  let event : gmap string pyval :=
    <["type" := VStr "message"]> (<["text" := VStr "$bu find it"]>
      (<["channel" := VStr "C1"]> ∅)) in
  _handle_event (Scenario.world Scenario.delivered (inr (Scenario.finished None)))
    Scenario.bot event "E5" init_state =
    (Return (),
     log_record ERROR "Missing required fields in event: user_id=None, channel=C1"
       (seen_record "E5" (log_record INFO "Received event id: E5" init_state))).
Proof.
  intros event.
  apply (missing_fields_logged
           (Scenario.world Scenario.delivered (inr (Scenario.finished None)))
           Scenario.bot event "E5" "$bu find it" init_state);
    try reflexivity.
  - discriminate.
  - apply not_elem_of_empty.
  - intros subtype Hsub. vm_compute in Hsub. discriminate.
  - left. reflexivity.
Defined.

(** X2: a message whose [text] is a value that is true in a boolean
    context but not a string (a number, [True]) is not dispatched: the
    [startswith] call raises, the handler catches it, logs the attribute
    error naming the value's type, and returns.  No call is made and the
    identifier stays recorded. *)
Theorem non_string_text_logged (world : World) (self : SlackBot)
    (event : gmap string pyval) (event_id : string) (text : pyval) (st : bot_state) :
  event_id ≠ "" →
  event_id ∉ processed_events st →
  eq_str (dict_get event "type") "message" = true →
  (∀ subtype, event !! "subtype" = Some subtype → eq_str subtype "bot_message" = false) →
  dict_get_default event "text" (VStr "") = text →
  truthy text = true →
  (∀ s, text ≠ VStr s) →
  _handle_event world self event event_id st =
    (Return (),
     log_record ERROR
       ("Error in handle_event: '" +:+ type_name text +:+
        "' object has no attribute 'startswith'")
       (seen_record event_id
          (log_record INFO ("Received event id: " +:+ event_id) st))).
Proof.
  intros Hid Hnew Htype Hsub Htext Htrue Hstr.
  rewrite handle_event_eq. cbn zeta.
  rewrite !bool_decide_false by done.
  unfold process_new, try_except, except_Exception. rewrite Htype. cbn [negb].
  replace (match event !! "subtype" with
           | Some s => eq_str s "bot_message" | None => false end)
    with false by (destruct (event !! "subtype") as [v|]; [by rewrite (Hsub v)|done]).
  cbn zeta. rewrite Htext.
  unfold is_command, mbind, M_bind. rewrite Htrue.
  destruct text as [| b | z | s]; try done.
  by destruct (Hstr s).
Qed.

Lemma non_string_text_logged_witness :
  let event : gmap string pyval :=
    <["text" := VInt 42]> (Scenario.message "U1" "") in
  _handle_event (Scenario.world Scenario.delivered (inr (Scenario.finished None)))
    Scenario.bot event "E6" init_state =
    (Return (),
     log_record ERROR
       "Error in handle_event: 'int' object has no attribute 'startswith'"
       (seen_record "E6" (log_record INFO "Received event id: E6" init_state))).
Proof.
  intros event.
  apply (non_string_text_logged
           (Scenario.world Scenario.delivered (inr (Scenario.finished None)))
           Scenario.bot event "E6" (VInt 42) init_state);
    try reflexivity.
  - discriminate.
  - apply not_elem_of_empty.
  - intros subtype Hsub. vm_compute in Hsub. discriminate.
  - discriminate.
Defined.

(** X1: nothing raised while an event is handled leaves [_handle_event].
    The handler always returns; and when the handling of a new identifier
    raises [e], which a post raising something other than a
    [SlackApiError] in the help reply or in the error report does, the
    handler logs [e] as an error and leaves the state as it was when [e]
    was raised, the identifier recorded. *)
Theorem handler_errors_contained (world : World) (self : SlackBot)
    (event : gmap string pyval) (event_id : string) (st : bot_state) :
  fst (_handle_event world self event event_id st) = Return () ∧
  ∀ e st',
    event_id ≠ "" →
    event_id ∉ processed_events st →
    process_new world self event
      (seen_record event_id (log_record INFO ("Received event id: " +:+ event_id) st)) =
      (Raise e, st') →
    snd (_handle_event world self event event_id st) =
      log_record ERROR ("Error in handle_event: " +:+ exn_str e) st' ∧
    event_id ∈ processed_events st'.
Proof.
  split; [apply returns_handle_event|].
  intros e st' Hid Hnew Hraise.
  rewrite handle_event_eq. cbn zeta.
  rewrite !bool_decide_false by done.
  unfold try_except, except_Exception. rewrite Hraise. split; [done|].
  pose proof (keeps_seen_process_new world self event
                (seen_record event_id
                   (log_record INFO ("Received event id: " +:+ event_id) st))) as Hseen.
  rewrite Hraise in Hseen. simpl in Hseen. rewrite Hseen. set_solver.
Qed.

Lemma handler_errors_contained_witness :
  let world := Scenario.world (Scenario.fails_after 0 (Exception "connection reset"))
                 (inr (Scenario.finished None)) in
  logs (snd (_handle_event world Scenario.bot (Scenario.message "U1" "$bu help") "E8"
               init_state)) =
    [(INFO, "Received event id: E8");
     (ERROR, "Error in handle_event: connection reset")].
Proof.
  intros world.
  rewrite (proj1 (proj2 (handler_errors_contained world Scenario.bot
                          (Scenario.message "U1" "$bu help") "E8" init_state)
                   (Exception "connection reset")
                   (call_record
                      (chat_postMessage (VStr "C1") (help_text Scenario.bot) (VStr "T1"))
                      (seen_record "E8"
                         (log_record INFO "Received event id: E8" init_state)))
                   ltac:(discriminate) ltac:(apply not_elem_of_empty)
                   ltac:(vm_compute; reflexivity))).
  reflexivity.
Defined.

(** X3: deliveries without an identifier are dropped one by one: a session
    made of such deliveries makes no call, records nothing in the seen-set,
    so that none of them is ever taken for a duplicate of another, and logs
    two records each, the receipt and the warning. *)
Theorem deliveries_without_id_dropped (world : World) (self : SlackBot)
    (ds : list delivery) (st : bot_state) :
  Forall (λ d : delivery, d.2 = "") ds →
  processed_events (handle_events world self ds st) = processed_events st ∧
  calls (handle_events world self ds st) = calls st ∧
  logs (handle_events world self ds st) =
    logs st ++
    concat (map (λ _ : delivery,
                   [(INFO, "Received event id: ");
                    (WARNING, "Event ID missing in event data")]) ds).
Proof.
  intros Hds. revert st.
  induction Hds as [|[event event_id] ds Hid Hds IH]; intros st.
  - simpl. by rewrite app_nil_r.
  - simpl in Hid. subst event_id. cbn [handle_events].
    rewrite handle_event_eq. cbn zeta. rewrite bool_decide_true by done.
    cbn [snd]. destruct (IH (log_record WARNING "Event ID missing in event data"
                               (log_record INFO ("Received event id: " +:+ "") st)))
      as (-> & -> & ->).
    split_and!; try done.
    simpl. by rewrite <- !app_assoc.
Qed.

Lemma deliveries_without_id_dropped_witness :
  let world := Scenario.world Scenario.delivered (inr (Scenario.finished None)) in
  calls (handle_events world Scenario.bot
           [(Scenario.message "U1" "$bu find it", "");
            (Scenario.message "U1" "$bu find it", "")] init_state) = [].
Proof.
  intros world.
  apply (deliveries_without_id_dropped world Scenario.bot
           [(Scenario.message "U1" "$bu find it", "");
            (Scenario.message "U1" "$bu find it", "")] init_state).
  repeat constructor.
Defined.

(** ** Where the calls go *)

Section Emits.
Context (P : call → Prop).

Lemma emits_ret {A} (a : A) : emits P (mret a : M A).
Proof. intros st. exists []. by rewrite app_nil_r. Qed.

Lemma emits_raise {A} e : emits P (raise e : M A).
Proof. intros st. exists []. by rewrite app_nil_r. Qed.

Lemma emits_logger lvl msg : emits P (logger lvl msg).
Proof. intros st. exists []. by rewrite app_nil_r. Qed.

Lemma emits_external c : P c → emits P (external c).
Proof. intros Hc st. exists [c]. split; [done | by constructor]. Qed.

Lemma emits_answer o : emits P (answer o).
Proof. destruct o; [apply emits_raise | apply emits_ret]. Qed.

Lemma emits_bind {A B} (m : M A) (k : A → M B) :
  emits P m → (∀ a, emits P (k a)) → emits P (m ≫= k).
Proof.
  intros Hm Hk st. unfold mbind, M_bind. destruct (Hm st) as (cs & Hcs & HP).
  destruct (m st) as [[a|e] st']; simpl in *; [|by exists cs].
  destruct (Hk a st') as (cs' & Hcs' & HP'). exists (cs ++ cs'). split.
  - by rewrite Hcs', Hcs, app_assoc.
  - by apply Forall_app.
Qed.

Lemma emits_try {A} (body : M A) handler :
  emits P body →
  (∀ e h, handler e = Some h → emits P h) →
  emits P (try_except body handler).
Proof.
  intros Hb Hh st. unfold try_except. destruct (Hb st) as (cs & Hcs & HP).
  destruct (body st) as [[a|e] st']; simpl in *; [by exists cs|].
  destruct (handler e) as [h|] eqn:E; [|by exists cs].
  destruct (Hh e h E st') as (cs' & Hcs' & HP'). exists (cs ++ cs'). split.
  - by rewrite Hcs', Hcs, app_assoc.
  - by apply Forall_app.
Qed.

End Emits.

#[export] Hint Resolve emits_ret emits_raise emits_logger emits_answer : frame.

Ltac emit :=
  repeat match goal with
    | |- ∀ _, _ => intro
    | |- emits _ (_ ≫= _) => apply emits_bind
    | |- emits _ (try_except _ (except_Exception _)) =>
        apply emits_try; [|intros ? ? [= <-]]
    | |- emits _ (external _) => apply emits_external; done
    | |- emits _ (if ?b then _ else _) => destruct b
    | |- emits _ (match ?x with _ => _ end) => destruct x
    | |- _ => solve [auto with frame]
    end.

Lemma emits_send_message P world channel text thread_ts :
  P (chat_postMessage channel text thread_ts) →
  emits P (send_message world channel text thread_ts).
Proof.
  intros HP st. exists [chat_postMessage channel text thread_ts].
  split; [apply send_message_calls | by constructor].
Qed.

Lemma emits_run_agent P world self task :
  P Browser_new → P (Agent_new task) → P (Agent_run (max_steps self)) →
  emits P (run_agent world self task).
Proof.
  intros Hb Ha Hr.
  unfold run_agent, run_agent_attempt, Browser, Agent, agent_run, index_last, index_first.
  emit.
Qed.

Lemma emits_handle_command P world self text user_id channel thread_ts :
  (∀ reply, P (chat_postMessage channel reply thread_ts)) →
  P Browser_new →
  P (Agent_new (PyStr.strip
                  (PyStr.slice_from (String.length (command_prefix self) + 1) text))) →
  P (Agent_run (max_steps self)) →
  emits P (_handle_command world self text user_id channel thread_ts).
Proof.
  intros Hpost Hb Ha Hr.
  pose proof (λ text, emits_send_message P world channel text thread_ts (Hpost text))
    as Hsend.
  pose proof (emits_run_agent P world self _ Hb Ha Hr) as Hrun.
  unfold _handle_command, handle_task, acknowledge, run_and_reply, report_error.
  emit.
Qed.

(** X8: every message [_handle_event] posts goes to the channel and the
    thread of the event it handles, read from the event's [channel] and
    [ts]: the acknowledgment, the help text, the result and the error
    report alike.  Nothing is ever posted elsewhere. *)
Theorem replies_stay_in_thread (world : World) (self : SlackBot)
    (event : gmap string pyval) (event_id : string) (st : bot_state) :
  ∃ cs,
    calls (snd (_handle_event world self event event_id st)) = calls st ++ cs ∧
    Forall (goes_to (dict_get event "channel") (dict_get event "ts")) cs.
Proof.
  revert st. change (emits (goes_to (dict_get event "channel") (dict_get event "ts"))
                       (_handle_event world self event event_id)).
  pose proof (λ text user_id,
                emits_handle_command
                  (goes_to (dict_get event "channel") (dict_get event "ts"))
                  world self text user_id (dict_get event "channel")
                  (dict_get event "ts") (λ _, conj eq_refl eq_refl) I I I) as Hcmd.
  unfold _handle_event, deduplicate, process_new, is_command.
  apply emits_try; [|intros ? ? [= <-]; emit].
  apply emits_bind; [emit|]. intros _.
  destruct (negb (truthy (VStr event_id))); [emit|].
  apply emits_bind.
  - intros st. exists []. rewrite app_nil_r. split; [|done].
    by case_bool_decide.
  - emit.
Qed.

(** ** The task handed to the agent *)

Lemma append_nil_r (s : string) : s +:+ "" = s.
Proof.
  induction s as [|c s IH]; [done|].
  change (String c (s +:+ "") = String c s). by rewrite IH.
Qed.

Lemma reverse_append (a b : string) :
  PyStr.reverse (a +:+ b) = PyStr.reverse b +:+ PyStr.reverse a.
Proof.
  induction a as [|c a IH].
  - change (PyStr.reverse b = PyStr.reverse b +:+ ""). by rewrite append_nil_r.
  - change (PyStr.reverse (a +:+ b) +:+ String c "" =
            PyStr.reverse b +:+ (PyStr.reverse a +:+ String c "")).
    by rewrite IH, append_assoc.
Qed.

Lemma reverse_involutive (s : string) : PyStr.reverse (PyStr.reverse s) = s.
Proof.
  induction s as [|c s IH]; [done|].
  change (PyStr.reverse (PyStr.reverse s +:+ String c "") = String c s).
  by rewrite reverse_append, IH.
Qed.

Lemma length_reverse (s : string) : String.length (PyStr.reverse s) = String.length s.
Proof.
  induction s as [|c s IH]; [done|].
  change (String.length (PyStr.reverse s +:+ String c "") = S (String.length s)).
  rewrite length_append, IH. simpl. lia.
Qed.

Lemma strip_prefix_Some (p s r : string) :
  PyStr.strip_prefix p s = Some r ↔ s = p +:+ r.
Proof.
  revert s. induction p as [|c p IH]; intros s.
  - change ("" +:+ r) with r. simpl. split; congruence.
  - change (String c p +:+ r) with (String c (p +:+ r)). simpl.
    destruct s as [|d s]; [split; done|].
    destruct (Ascii.eqb_spec c d) as [->|Hne].
    + rewrite IH. split; congruence.
    + split; [done | congruence].
Qed.

Section Stripping.
Context (ws : list string).

Lemma first_match_Some (s r : string) :
  PyStr.first_match ws s = Some r → ∃ w, w ∈ ws ∧ s = w +:+ r.
Proof.
  induction ws as [|w ws' IH]; simpl; [done|].
  destruct (PyStr.strip_prefix w s) as [rest|] eqn:E.
  - intros [= ->]. exists w. split; [left | by apply strip_prefix_Some].
  - intros H. destruct (IH H) as (w' & Hin & ->). exists w'. split; [by right | done].
Qed.

Lemma first_match_None (s : string) :
  PyStr.first_match ws s = None ↔ ∀ w r, w ∈ ws → s ≠ w +:+ r.
Proof.
  induction ws as [|w ws' IH]; simpl.
  - split; [|done]. intros _ w r Hin. by apply elem_of_nil in Hin.
  - destruct (PyStr.strip_prefix w s) as [rest|] eqn:E.
    + split; [done|]. intros H. apply strip_prefix_Some in E.
      destruct (H w rest); [left | done].
    + rewrite IH. split.
      * intros H w' r [->|Hin]%elem_of_cons.
        -- intros Heq%strip_prefix_Some. congruence.
        -- by apply H.
      * intros H w' r Hin. apply H. by right.
Qed.

Lemma lstrip_with_fixed (n : nat) (s : string) :
  PyStr.first_match ws s = None → PyStr.lstrip_with ws n s = s.
Proof. intros H. destruct n; simpl; [done | by rewrite H]. Qed.

Lemma made_of_app (a b : string) :
  made_of ws a → made_of ws b → made_of ws (a +:+ b).
Proof.
  induction 1 as [|w a Hw Ha IH]; intros Hb; [done|].
  rewrite append_assoc. constructor; auto.
Qed.

Lemma lstrip_with_spec (n : nat) (s : string) :
  Forall (λ w, w ≠ "") ws →
  (String.length s ≤ n)%nat →
  ∃ lead, s = lead +:+ PyStr.lstrip_with ws n s ∧
          made_of ws lead ∧
          PyStr.first_match ws (PyStr.lstrip_with ws n s) = None.
Proof.
  intros Hws. revert s. induction n as [|n IH]; intros s Hlen.
  - exists "". split; [done|]. split; [constructor|].
    destruct s; [|simpl in Hlen; lia]. simpl.
    apply first_match_None. intros w r Hin Heq.
    rewrite Forall_forall in Hws. apply (Hws w Hin).
    by destruct w.
  - simpl. destruct (PyStr.first_match ws s) as [rest|] eqn:E.
    + destruct (first_match_Some s rest E) as (w & Hin & ->).
      rewrite Forall_forall in Hws. pose proof (Hws w Hin) as Hw.
      rewrite length_append in Hlen.
      assert (String.length w ≠ 0)%nat by by destruct w.
      destruct (IH rest ltac:(lia)) as (lead & Hrest & Hlead & Hnone).
      exists (w +:+ lead). split_and!; [|by constructor|done].
      by rewrite append_assoc, <- Hrest.
    + exists "". split_and!; [done|constructor|done].
Qed.

End Stripping.

Lemma made_of_reverse (ws : list string) (s : string) :
  made_of (map PyStr.reverse ws) s → made_of ws (PyStr.reverse s).
Proof.
  induction 1 as [|w' s Hw Hs IH]; [constructor|].
  apply list_elem_of_In, in_map_iff in Hw. destruct Hw as (w & <- & Hin).
  rewrite reverse_append, reverse_involutive.
  apply made_of_app; [done|].
  rewrite <- (append_nil_r w). constructor; [by apply list_elem_of_In | constructor].
Qed.

Lemma whitespace_nonempty : Forall (λ w, w ≠ "") PyStr.whitespace.
Proof. apply (bool_decide_unpack _). by vm_compute. Qed.

Lemma reversed_whitespace_nonempty :
  Forall (λ w, w ≠ "") (map PyStr.reverse PyStr.whitespace).
Proof. apply (bool_decide_unpack _). by vm_compute. Qed.

(** [lstrip] removes whitespace from the front, and all of it. *)
Lemma lstrip_spec (s : string) :
  ∃ lead, s = lead +:+ PyStr.lstrip s ∧ blank lead ∧
          ∀ w r, w ∈ PyStr.whitespace → PyStr.lstrip s ≠ w +:+ r.
Proof.
  destruct (lstrip_with_spec PyStr.whitespace (String.length s) s
              whitespace_nonempty ltac:(lia)) as (lead & Hs & Hlead & Hnone).
  exists lead. split_and!; [done..|]. by apply first_match_None.
Qed.

(** [rstrip] removes whitespace from the back, and all of it. *)
Lemma rstrip_spec (s : string) :
  ∃ trail, s = PyStr.rstrip s +:+ trail ∧ blank trail ∧
           ∀ w r, w ∈ PyStr.whitespace → PyStr.rstrip s ≠ r +:+ w.
Proof.
  destruct (lstrip_with_spec (map PyStr.reverse PyStr.whitespace) (String.length s)
              (PyStr.reverse s) reversed_whitespace_nonempty
              ltac:(rewrite length_reverse; lia)) as (lead & Hs & Hlead & Hnone).
  exists (PyStr.reverse lead). unfold PyStr.rstrip. split_and!.
  - by rewrite <- reverse_append, <- Hs, reverse_involutive.
  - by apply made_of_reverse.
  - intros w r Hin Heq. apply (f_equal PyStr.reverse) in Heq.
    rewrite reverse_involutive, reverse_append in Heq.
    rewrite first_match_None in Hnone. apply (Hnone (PyStr.reverse w) _) in Heq; [done|].
    apply list_elem_of_In, in_map, list_elem_of_In, Hin.
Qed.

(** [strip] removes the whitespace around a string, all of it and nothing
    else. *)
Lemma strip_spec (s : string) :
  ∃ lead trail,
    s = lead +:+ PyStr.strip s +:+ trail ∧ blank lead ∧ blank trail ∧
    ∀ w r, w ∈ PyStr.whitespace →
           PyStr.strip s ≠ w +:+ r ∧ PyStr.strip s ≠ r +:+ w.
Proof.
  destruct (lstrip_spec s) as (lead & Hs & Hlead & Hfront).
  destruct (rstrip_spec (PyStr.lstrip s)) as (trail & Hu & Htrail & Hback).
  exists lead, trail. unfold PyStr.strip. split_and!; [|done..|].
  - by rewrite <- Hu.
  - intros w r Hin. split; [|by apply Hback].
    intros Heq. apply (Hfront w (r +:+ trail) Hin).
    by rewrite Hu, Heq, append_assoc.
Qed.

Lemma strip_strip (s : string) : PyStr.strip (PyStr.strip s) = PyStr.strip s.
Proof.
  destruct (strip_spec s) as (_ & _ & _ & _ & _ & Hends).
  set (t := PyStr.strip s) in *. unfold PyStr.strip.
  assert (PyStr.lstrip t = t) as ->.
  { apply lstrip_with_fixed, first_match_None. intros w r Hin.
    apply (proj1 (Hends w r Hin)). }
  unfold PyStr.rstrip. rewrite lstrip_with_fixed; [apply reverse_involutive|].
  apply first_match_None. intros w' r Hin Heq.
  apply list_elem_of_In, in_map_iff in Hin. destruct Hin as (w & <- & Hin).
  apply (f_equal PyStr.reverse) in Heq.
  rewrite reverse_involutive, reverse_append, reverse_involutive in Heq.
  apply list_elem_of_In in Hin.
  by apply (proj2 (Hends w (PyStr.reverse r) Hin)).
Qed.

(** X9: the task [_handle_command] gives the agent is the text after the
    prefix and one more character with the whitespace around it removed,
    all of it and nothing else: that text is the task between two runs of
    whitespace characters, the task neither starts nor ends with a
    whitespace character, of ASCII or not, and trimming it again changes
    nothing.  Every agent the command constructs gets this task. *)
Theorem agent_task_is_trimmed (world : World) (self : SlackBot) (text : string)
    (user_id channel thread_ts : pyval) (st : bot_state) :
  let remainder := PyStr.slice_from (String.length (command_prefix self) + 1) text in
  let task := PyStr.strip remainder in
  (∃ lead trail, remainder = lead +:+ task +:+ trail ∧ blank lead ∧ blank trail) ∧
  (∀ w rest, w ∈ PyStr.whitespace → task ≠ w +:+ rest ∧ task ≠ rest +:+ w) ∧
  PyStr.strip task = task ∧
  ∃ cs,
    calls (snd (_handle_command world self text user_id channel thread_ts st)) =
      calls st ++ cs ∧
    Forall (works_on task) cs.
Proof.
  intros remainder task.
  destruct (strip_spec remainder) as (lead & trail & Hrem & Hlead & Htrail & Hends).
  split; [by exists lead, trail|]. split; [done|]. split; [apply strip_strip|].
  by apply (emits_handle_command (works_on task) world self text user_id channel
              thread_ts).
Qed.

Lemma agent_task_is_trimmed_witness :
  let text := "$bu " +:+ PyStr.utf8 0x2003 +:+ "find it" +:+ PyStr.utf8 0xA0 in
  let task := PyStr.strip (PyStr.slice_from 4 text) in
  task = "find it" ∧
  task ≠ PyStr.utf8 0xA0 +:+ "find it" ∧
  ∃ cs,
    calls (snd (_handle_command
                  (Scenario.world Scenario.delivered (inr (Scenario.finished None)))
                  Scenario.bot text (VStr "U1") (VStr "C1") (VStr "T1") init_state)) =
      calls init_state ++ cs ∧
    Forall (works_on task) cs.
Proof.
  intros text task.
  destruct (agent_task_is_trimmed
              (Scenario.world Scenario.delivered (inr (Scenario.finished None)))
              Scenario.bot text (VStr "U1") (VStr "C1") (VStr "T1") init_state)
    as (_ & Hends & _ & Hcalls).
  split; [by vm_compute|]. split; [|exact Hcalls].
  apply (Hends (PyStr.utf8 0xA0) "find it").
  apply (bool_decide_unpack _). by vm_compute.
Defined.

(** ** Redeliveries are invisible from outside *)

Lemma same_outside_refl st : same_outside st st.
Proof. by split. Qed.

Lemma same_outside_trans st1 st2 st3 :
  same_outside st1 st2 → same_outside st2 st3 → same_outside st1 st3.
Proof. intros [H1 H2] [H3 H4]. split; congruence. Qed.

Lemma blind_ret {A} (a : A) : blind (mret a : M A).
Proof. by intros st st' H. Qed.

Lemma blind_raise {A} e : blind (raise e : M A).
Proof. by intros st st' H. Qed.

Lemma blind_logger lvl msg : blind (logger lvl msg).
Proof. by intros st st' [H1 H2]. Qed.

Lemma blind_external c : blind (external c).
Proof.
  intros st st' [H1 H2]. unfold external, same_outside. simpl.
  by rewrite H1, H2.
Qed.

Lemma blind_answer o : blind (answer o).
Proof. destruct o; [apply blind_raise | apply blind_ret]. Qed.

Lemma blind_bind {A B} (m : M A) (k : A → M B) :
  blind m → (∀ a, blind (k a)) → blind (m ≫= k).
Proof.
  intros Hm Hk st st' Hst. unfold mbind, M_bind.
  destruct (Hm st st' Hst) as [Hfst Hsnd].
  destruct (m st) as [[a|e] st1], (m st') as [[a'|e'] st1']; simplify_eq/=.
  - by apply Hk.
  - done.
Qed.

Lemma blind_try {A} (body : M A) handler :
  blind body →
  (∀ e h, handler e = Some h → blind h) →
  blind (try_except body handler).
Proof.
  intros Hb Hh st st' Hst. unfold try_except.
  destruct (Hb st st' Hst) as [Hfst Hsnd].
  destruct (body st) as [[a|e] st1], (body st') as [[a'|e'] st1']; simplify_eq/=.
  - done.
  - destruct (handler e') as [h|] eqn:E; [|done].
    by apply (Hh e' h E).
Qed.

Lemma blind_deduplicate event_id : blind (deduplicate event_id).
Proof.
  intros st st' [H1 H2]. unfold deduplicate. rewrite H1.
  case_bool_decide; simpl; [done|].
  unfold same_outside. simpl. by rewrite H1, H2.
Qed.

#[export] Hint Resolve blind_ret blind_raise blind_logger blind_external
  blind_answer blind_deduplicate : frame.

Ltac blind :=
  repeat match goal with
    | |- ∀ _, _ => intro
    | |- blind (_ ≫= _) => apply blind_bind
    | |- blind (try_except _ (except_Exception _)) =>
        apply blind_try; [|intros ? ? [= <-]]
    | |- blind (try_except _ (except_SlackApiError _)) =>
        apply blind_try; [|intros [] ? [= <-]]
    | |- blind (if ?b then _ else _) => destruct b
    | |- blind (match ?x with _ => _ end) => destruct x
    | |- _ => solve [auto with frame]
    end.

Lemma blind_handle_event world self event event_id :
  blind (_handle_event world self event event_id).
Proof.
  unfold _handle_event, process_new, is_command, _handle_command, handle_task,
    acknowledge, run_and_reply, report_error, run_agent, run_agent_attempt,
    Browser, Agent, agent_run, index_last, index_first, send_message,
    client_chat_postMessage.
  blind.
Qed.

Lemma handle_events_blind world self (ds : list delivery) st st' :
  same_outside st st' →
  same_outside (handle_events world self ds st) (handle_events world self ds st').
Proof.
  revert st st'. induction ds as [|[event event_id] ds IH]; intros st st' Hst; [done|].
  simpl. apply IH. by apply blind_handle_event.
Qed.

(** X10: the redeliveries of a session, and its deliveries without an
    identifier, leave no mark outside the log: handling a session makes
    the same calls, in the same order, and ends with the same seen-set as
    handling only those of its deliveries whose identifier is neither
    missing nor seen before. *)
Theorem redeliveries_invisible (world : World) (self : SlackBot)
    (ds : list delivery) (st : bot_state) :
  calls (handle_events world self ds st) =
    calls (handle_events world self (effective (processed_events st) ds) st) ∧
  processed_events (handle_events world self ds st) =
    processed_events (handle_events world self (effective (processed_events st) ds) st).
Proof.
  enough (same_outside (handle_events world self ds st)
            (handle_events world self (effective (processed_events st) ds) st))
    as [H1 H2] by done.
  revert st. induction ds as [|[event event_id] ds IH]; intros st.
  - apply same_outside_refl.
  - cbn [handle_events effective].
    case_bool_decide as Hdrop;
      pose proof (handle_event_seen world self event event_id st) as Hseen.
    + pose proof (handle_event_dropped world self event event_id st Hdrop) as Hcalls.
      assert (processed_events (snd (_handle_event world self event event_id st)) =
              processed_events st) as Hsame.
      { rewrite Hseen. case_bool_decide; [done|]. set_solver. }
      eapply same_outside_trans; [apply IH|]. rewrite Hsame.
      apply handle_events_blind. by split.
    + cbn [handle_events].
      rewrite bool_decide_false in Hseen by tauto.
      rewrite <- Hseen. apply IH.
Qed.

Lemma count_runs_app (cs1 cs2 : list call) :
  count_runs (cs1 ++ cs2) = count_runs cs1 + count_runs cs2.
Proof. unfold count_runs. by rewrite filter_app, length_app. Qed.

Lemma count_runs_nil : count_runs [] = 0.
Proof. done. Qed.

Lemma count_runs_cons (c : call) (cs : list call) :
  count_runs (c :: cs) = (if is_run c then 1 else 0) + count_runs cs.
Proof.
  unfold count_runs. rewrite filter_cons.
  destruct (is_run c); case_decide; simpl; done.
Qed.

Ltac count_runs :=
  rewrite ?count_runs_app, ?count_runs_cons, ?count_runs_nil; simpl; lia.

Lemma is_command_state self text st : snd (is_command self text st) = st.
Proof. unfold is_command. by destruct (truthy text), text. Qed.

Lemma handle_event_runs_once world self event event_id st :
  (count_runs (calls (snd (_handle_event world self event event_id st))) ≤
     S (count_runs (calls st)))%nat.
Proof.
  rewrite handle_event_eq. cbn zeta.
  repeat case_bool_decide; simpl; try lia.
  set (st1 := seen_record _ _).
  change (calls st) with (calls st1).
  unfold try_except, except_Exception.
  assert (count_runs (calls (snd (process_new world self event st1))) ≤
          S (count_runs (calls st1)))%nat as Hnew.
  { unfold process_new.
    destruct (negb _); [simpl; lia|].
    destruct (match event !! "subtype" with Some _ => _ | None => _ end); [simpl; lia|].
    cbn zeta. unfold mbind at 1, M_bind at 1.
    pose proof (is_command_state self (dict_get_default event "text" (VStr "")) st1)
      as Hst.
    destruct (is_command self _ st1) as [[command|e] st2] eqn:Ecmd;
      simpl in Hst; subst st2; [|simpl; lia].
    destruct (command && _ && _).
    - destruct (dict_get_default event "text" (VStr "")) as [| | |text]; try (simpl; lia).
      unfold _handle_command.
      destruct (PyStr.in_list _ _).
      + rewrite send_message_calls. count_runs.
      + unfold handle_task, mbind, M_bind.
        set (task := PyStr.strip _).
        pose proof (acknowledge_calls world self task (dict_get event "user")
                      (dict_get event "channel") (dict_get event "ts") st1) as Hack.
        destruct (returns_acknowledge world self task (dict_get event "user")
                    (dict_get event "channel") (dict_get event "ts") st1) as [[] Hret].
        destruct (acknowledge _ _ _ _ _ _ _) as [r st3]. simpl in Hret, Hack. subst r.
        destruct (run_and_reply_calls world self task (dict_get event "user")
                    (dict_get event "channel") (dict_get event "ts") st3)
          as (agent_message & st4 & Hrun & ->).
        pose proof (proj1 (run_agent_protocol world self task st3)) as Hproto.
        rewrite Hrun in Hproto. simpl in Hproto.
        rewrite Hproto, Hack. clear Hproto Hack.
        change (calls st1) with (calls st).
        repeat match goal with
               | |- context [match ?x with _ => _ end] => destruct x
               | |- context [if ?b then _ else _] => destruct b
               end; count_runs.
    - unfold mbind, M_bind. rewrite Ecmd. destruct command; simpl; lia. }
  destruct (process_new world self event st1) as [[[]|e] st2]; simpl in *; lia.
Qed.

(** X15: a session starts at most one agent run for each of its deliveries
    whose identifier is neither missing nor seen before; redeliveries never
    add a run. *)
Theorem runs_bounded_by_new_deliveries (world : World) (self : SlackBot)
    (ds : list delivery) (st : bot_state) :
  (count_runs (calls (handle_events world self ds st)) ≤
     count_runs (calls st) + length (effective (processed_events st) ds))%nat.
Proof.
  revert st. induction ds as [|[event event_id] ds IH]; intros st.
  - simpl. lia.
  - cbn [handle_events effective].
    specialize (IH (snd (_handle_event world self event event_id st))).
    case_bool_decide as Hdrop;
      pose proof (handle_event_seen world self event event_id st) as Hseen.
    + rewrite (handle_event_dropped world self event event_id st Hdrop) in IH.
      replace (processed_events (snd (_handle_event world self event event_id st)))
        with (processed_events st) in IH; [done|].
      rewrite Hseen. case_bool_decide; [done|]. set_solver.
    + rewrite bool_decide_false in Hseen by tauto. rewrite Hseen in IH.
      pose proof (handle_event_runs_once world self event event_id st).
      simpl. lia.
Qed.

(** ** The Socket Mode listener *)

Section ListenerFacts.
Context (respond : Responder) (world : World) (self : SlackBot).

Lemma socket_request_responses request ss :
  responses (snd (_handle_socket_request respond world self request ss)) =
    responses ss ++ [SocketMode.envelope_id request].
Proof.
  unfold _handle_socket_request. destruct (respond _ _ _); [done|].
  destruct (String.eqb _ _); [|done].
  by destruct (_handle_event _ _ _ _ _).
Qed.

End ListenerFacts.

(** X11: the listener acknowledges every request, first and once, with the
    request's own envelope identifier, whatever the request is.  It raises
    exactly when sending that acknowledgment raises, with that exception:
    nothing that goes wrong while the event is handled reaches the socket
    client.  A request whose acknowledgment failed, or that is not an
    Events API request, leaves the bot as it was. *)
Theorem socket_request_acknowledged (respond : Responder) (world : World)
    (self : SlackBot) (request : SocketModeRequest) (ss : socket_state) :
  let answer := respond (responses ss) (calls (bot_state_of ss))
                  (SocketMode.envelope_id request) in
  let after := _handle_socket_request respond world self request ss in
  responses (snd after) = responses ss ++ [SocketMode.envelope_id request] ∧
  (∀ e, fst after = Raise e ↔ answer = Some e) ∧
  (answer ≠ None ∨ SocketMode.type request ≠ "events_api" →
   bot_state_of (snd after) = bot_state_of ss).
Proof.
  intros answer after. split; [apply socket_request_responses|].
  subst answer after. unfold _handle_socket_request.
  destruct (respond _ _ _) as [e'|]; simpl.
  - split; [|done]. intros e. split; congruence.
  - destruct (String.eqb_spec (SocketMode.type request) "events_api") as [Htype|Htype].
    + pose proof (returns_handle_event world self
                    (default ∅ (SocketMode.event (SocketMode.payload request)))
                    (default "" (SocketMode.event_id (SocketMode.payload request)))
                    (bot_state_of ss)) as Hret.
      destruct (_handle_event _ _ _ _ _) as [r st]. simpl in *. subst r.
      split; [done|]. intros [?|?]; done.
    + split; [done|]. done.
Qed.

Lemma socket_request_acknowledged_witness :
  let request := {| SocketMode.envelope_id := "env-1";
                    SocketMode.type := "slash_commands";
                    SocketMode.payload :=
                      {| SocketMode.event := Some (Scenario.message "U1" "$bu find it");
                         SocketMode.event_id := Some "E1" |} |} in
  bot_state_of
    (snd (_handle_socket_request (λ _ _ _, None)
            (Scenario.world Scenario.delivered (inr (Scenario.finished None)))
            Scenario.bot request
            {| bot_state_of := init_state; responses := [] |})) = init_state.
Proof.
  intros request.
  apply (socket_request_acknowledged (λ _ _ _, None)
           (Scenario.world Scenario.delivered (inr (Scenario.finished None)))
           Scenario.bot request {| bot_state_of := init_state; responses := [] |}).
  right. discriminate.
Defined.

(** X13: an Events API request whose payload carries no [event_id] is
    acknowledged like any other, and its event is then dropped: the
    identifier defaults to the empty string, so no call is made and the
    seen-set does not change, whatever the event says. *)
Theorem request_without_event_id_dropped (respond : Responder) (world : World)
    (self : SlackBot) (request : SocketModeRequest) (ss : socket_state) :
  SocketMode.event_id (SocketMode.payload request) = None →
  let after := snd (_handle_socket_request respond world self request ss) in
  responses after = responses ss ++ [SocketMode.envelope_id request] ∧
  calls (bot_state_of after) = calls (bot_state_of ss) ∧
  processed_events (bot_state_of after) = processed_events (bot_state_of ss).
Proof.
  intros Hid after. split; [apply socket_request_responses|].
  subst after. unfold _handle_socket_request. rewrite Hid.
  destruct (respond _ _ _); [done|].
  destruct (String.eqb _ _); [|done].
  pose proof (handle_event_dropped world self
                (default ∅ (SocketMode.event (SocketMode.payload request))) ""
                (bot_state_of ss) (or_introl eq_refl)) as Hcalls.
  pose proof (handle_event_seen world self
                (default ∅ (SocketMode.event (SocketMode.payload request))) ""
                (bot_state_of ss)) as Hseen.
  rewrite bool_decide_true in Hseen by done.
  change (default "" None) with "".
  by destruct (_handle_event _ _ _ _ _).
Qed.

Lemma request_without_event_id_dropped_witness :
  let request := {| SocketMode.envelope_id := "env-2";
                    SocketMode.type := "events_api";
                    SocketMode.payload :=
                      {| SocketMode.event := Some (Scenario.message "U1" "$bu find it");
                         SocketMode.event_id := None |} |} in
  calls (bot_state_of
           (snd (_handle_socket_request (λ _ _ _, None)
                   (Scenario.world Scenario.delivered (inr (Scenario.finished None)))
                   Scenario.bot request
                   {| bot_state_of := init_state; responses := [] |}))) = [].
Proof.
  intros request.
  apply (request_without_event_id_dropped (λ _ _ _, None)
           (Scenario.world Scenario.delivered (inr (Scenario.finished None)))
           Scenario.bot request {| bot_state_of := init_state; responses := [] |}).
  reflexivity.
Defined.

(** X12: over a connection, the listener hands the socket client exactly
    one acknowledgment for every request, in the order of arrival and with
    the request's envelope identifier: for redelivered events, for events
    that are dropped, and for events whose handling failed, as for the
    others. *)
Theorem every_request_acknowledged (respond : Responder) (world : World)
    (self : SlackBot) (requests : list SocketModeRequest) (ss : socket_state) :
  responses (handle_requests respond world self requests ss) =
    responses ss ++ map SocketMode.envelope_id requests.
Proof.
  revert ss. induction requests as [|request rest IH]; intros ss; simpl.
  - by rewrite app_nil_r.
  - by rewrite IH, socket_request_responses, <- app_assoc.
Qed.

(** X14: an event that comes again in a new envelope is acknowledged
    again and not handled again: when the identifier in the payload is
    already in the seen-set, the listener sends the acknowledgment, makes
    no other call, leaves the seen-set as it was and does not raise unless
    the acknowledgment did. *)
Theorem redelivered_request_only_acknowledged (respond : Responder) (world : World)
    (self : SlackBot) (request : SocketModeRequest) (ss : socket_state)
    (event_id : string) :
  SocketMode.event_id (SocketMode.payload request) = Some event_id →
  event_id ∈ processed_events (bot_state_of ss) →
  let after := snd (_handle_socket_request respond world self request ss) in
  responses after = responses ss ++ [SocketMode.envelope_id request] ∧
  calls (bot_state_of after) = calls (bot_state_of ss) ∧
  processed_events (bot_state_of after) = processed_events (bot_state_of ss).
Proof.
  intros Hid Hseen after. split; [apply socket_request_responses|].
  subst after. unfold _handle_socket_request. rewrite Hid.
  destruct (respond _ _ _); [done|].
  destruct (String.eqb _ _); [|done].
  change (default "" (Some event_id)) with event_id.
  pose proof (handle_event_dropped world self
                (default ∅ (SocketMode.event (SocketMode.payload request))) event_id
                (bot_state_of ss) (or_intror Hseen)) as Hcalls.
  pose proof (handle_event_seen world self
                (default ∅ (SocketMode.event (SocketMode.payload request))) event_id
                (bot_state_of ss)) as Hset.
  destruct (_handle_event _ _ _ _ _) as [r st]. simpl in *.
  split; [done|]. rewrite Hset. case_bool_decide; [done|]. set_solver.
Qed.

Lemma redelivered_request_only_acknowledged_witness :
  let world := Scenario.world Scenario.delivered (inr (Scenario.finished None)) in
  let request := {| SocketMode.envelope_id := "env-4";
                    SocketMode.type := "events_api";
                    SocketMode.payload :=
                      {| SocketMode.event := Some (Scenario.message "U1" "$bu find it");
                         SocketMode.event_id := Some "E1" |} |} in
  let ss := {| bot_state_of := seen_record "E1" init_state; responses := ["env-3"] |} in
  responses (snd (_handle_socket_request (λ _ _ _, None) world Scenario.bot request ss)) =
    ["env-3"; "env-4"] ∧
  calls (bot_state_of
           (snd (_handle_socket_request (λ _ _ _, None) world Scenario.bot request ss))) =
    [].
Proof.
  intros world request ss.
  destruct (redelivered_request_only_acknowledged (λ _ _ _, None) world Scenario.bot
              request ss "E1" eq_refl) as (Hresp & Hcalls & _).
  { simpl. set_solver. }
  by split.
Defined.

(** ** Command classification *)

Lemma handler_calls (world : World) (self : SlackBot) (event : gmap string pyval)
    (event_id : string) (st : bot_state) :
  event_id ≠ "" →
  event_id ∉ processed_events st →
  calls (snd (_handle_event world self event event_id st)) =
    calls (snd (process_new world self event
                  (seen_record event_id
                     (log_record INFO ("Received event id: " +:+ event_id) st)))).
Proof.
  intros Hid Hnew. rewrite handle_event_eq. cbn zeta.
  rewrite !bool_decide_false by done.
  unfold try_except, except_Exception.
  by destruct (process_new _ _ _ _) as [[[]|e] st'].
Qed.

(** Spec section 8, property 2, with whitespace from outside ASCII around
    the word. *)
Example parse_help_after_no_break_space :
  spec_parse ("$bu " +:+ PyStr.utf8 0xA0 +:+ "help" +:+ PyStr.utf8 0x2003) "$bu" = Help.
Proof. by vm_compute. Qed.

(** C2: the program classifies a text as the specification's parser does,
    in the guard of [_handle_event], in [_handle_command], and from the
    event to the calls made.  A text the parser ignores is not a command
    for the guard, and an event carrying it is dropped without effect and
    without a call.  A text the parser reads as a help request is a
    command; [_handle_command] answers it with the usage message, and an
    addressed event carrying it is handed on to just that: the one call of
    its handling is the post of the usage message.  A text the parser reads
    as a task is a command; [_handle_command] acknowledges and runs the
    parser's body, the empty body included, and an addressed event carrying
    it is handed on to just that: its handling makes the acknowledgment,
    when enabled, with that body, and then always calls the [Browser]
    constructor. *)
Theorem command_classification (world : World) (self : SlackBot) (text : string) :
  match spec_parse text (command_prefix self) with
  | Ignore =>
      is_command self (VStr text) = mret false ∧
      (∀ (event : gmap string pyval) (st : bot_state),
         process_new world self (<["text" := VStr text]> event) st = (Return (), st)) ∧
      ∀ (event : gmap string pyval) (event_id : string) (st : bot_state),
        calls (snd (_handle_event world self (<["text" := VStr text]> event)
                      event_id st)) = calls st
  | Help =>
      is_command self (VStr text) = mret true ∧
      (∀ user_id channel thread_ts,
         _handle_command world self text user_id channel thread_ts =
           send_message world channel (help_text self) thread_ts) ∧
      ∀ event : gmap string pyval,
        addressed event text →
        (∀ st, process_new world self event st =
                 send_message world (dict_get event "channel") (help_text self)
                   (dict_get event "ts") st) ∧
        ∀ event_id st,
          event_id ≠ "" →
          event_id ∉ processed_events st →
          calls (snd (_handle_event world self event event_id st)) =
            calls st ++
            [chat_postMessage (dict_get event "channel") (help_text self)
               (dict_get event "ts")]
  | Task body =>
      is_command self (VStr text) = mret true ∧
      (∀ user_id channel thread_ts,
         _handle_command world self text user_id channel thread_ts =
           handle_task world self body user_id channel thread_ts ∧
         ∀ st, ∃ cs,
           calls (snd (_handle_command world self text user_id channel thread_ts st)) =
             calls (snd (acknowledge world self body user_id channel thread_ts st)) ++
             Browser_new :: cs) ∧
      ∀ event : gmap string pyval,
        addressed event text →
        (∀ st, process_new world self event st =
                 handle_task world self body (dict_get event "user")
                   (dict_get event "channel") (dict_get event "ts") st) ∧
        ∀ event_id st,
          event_id ≠ "" →
          event_id ∉ processed_events st →
          ∃ cs,
            calls (snd (_handle_event world self event event_id st)) =
              calls st ++
              (if ack self
               then [chat_postMessage (dict_get event "channel")
                       (ack_text (dict_get event "user") body) (dict_get event "ts")]
               else []) ++
              Browser_new :: cs
  end.
Proof.
  unfold spec_parse.
  destruct (PyStr.startswith text (command_prefix self +:+ " ")) eqn:Hpre.
  - assert (is_command self (VStr text) = mret true) as Hcmd.
    { unfold is_command. cbn [truthy].
      by rewrite (startswith_nonempty _ _ Hpre), Hpre. }
    assert (∀ event, addressed event text →
              ∀ st, process_new world self event st =
                      _handle_command world self text (dict_get event "user")
                        (dict_get event "channel") (dict_get event "ts") st) as Hnew.
    { intros event (Htype & Hsub & Htext & Huser & Hchan) st.
      by apply process_new_command. }
    rewrite length_append. cbn [String.length].
    set (body := PyStr.strip _).
    assert (equals_ignoring_case body "help" || equals_ignoring_case body "--help"
            || equals_ignoring_case body "-h" =
            PyStr.in_list (PyStr.lower body) ["help"; "--help"; "-h"]) as ->.
    { unfold equals_ignoring_case, PyStr.in_list. simpl.
      by rewrite orb_false_r, orb_assoc. }
    assert (∀ user_id channel thread_ts,
              _handle_command world self text user_id channel thread_ts =
                if PyStr.in_list (PyStr.lower body) ["help"; "--help"; "-h"]
                then send_message world channel (help_text self) thread_ts
                else handle_task world self body user_id channel thread_ts) as Hcommand
      by done.
    destruct (PyStr.in_list _ _) eqn:Hhelp; (split; [done|]).
    + split; [done|]. intros event Haddr. split.
      * intros st. by rewrite (Hnew event Haddr), Hcommand.
      * intros event_id st Hid Hfresh.
        rewrite handler_calls, (Hnew event Haddr), Hcommand by done.
        by rewrite send_message_calls.
    + assert (∀ user_id channel thread_ts st, ∃ cs,
                calls (snd (handle_task world self body user_id channel thread_ts st)) =
                  calls (snd (acknowledge world self body user_id channel thread_ts st)) ++
                  Browser_new :: cs) as Htask.
      { intros user_id channel thread_ts st. unfold handle_task, mbind, M_bind.
        destruct (returns_acknowledge world self body user_id channel thread_ts st)
          as [[] Hack].
        destruct (acknowledge _ _ _ _ _ _ _) as [r st1]. simpl in Hack. subst r. simpl.
        apply starts_run_and_reply. }
      split.
      * intros user_id channel thread_ts. split; [done|]. intros st.
        rewrite Hcommand. apply Htask.
      * intros event Haddr. split.
        -- intros st. by rewrite (Hnew event Haddr), Hcommand.
        -- intros event_id st Hid Hfresh.
           rewrite handler_calls, (Hnew event Haddr), Hcommand by done.
           destruct (Htask (dict_get event "user") (dict_get event "channel")
                       (dict_get event "ts")
                       (seen_record event_id
                          (log_record INFO ("Received event id: " +:+ event_id) st)))
             as [cs Hcs].
           exists cs. rewrite Hcs, acknowledge_calls. simpl. by rewrite <- app_assoc.
  - assert (∀ (event : gmap string pyval) st,
              process_new world self (<["text" := VStr text]> event) st = (Return (), st))
      as Hnew.
    { intros event st. unfold process_new.
      destruct (negb _); [done|].
      destruct (match _ !! "subtype" with Some _ => _ | None => _ end); [done|].
      cbn zeta. unfold dict_get_default. rewrite lookup_insert_eq.
      change (default (VStr "") (Some (VStr text))) with (VStr text).
      unfold is_command, mbind, M_bind. cbn [truthy]. rewrite Hpre.
      by destruct (negb _). }
    split_and!; [|done|].
    + unfold is_command. cbn [truthy]. rewrite Hpre. by destruct (negb _).
    + intros event event_id st.
      destruct (decide (event_id = "" ∨ event_id ∈ processed_events st)) as [Hdrop|Hkeep].
      * by apply handle_event_dropped.
      * rewrite handler_calls by tauto. by rewrite Hnew.
Qed.

Lemma command_classification_witness :
  let world := Scenario.world Scenario.delivered (inr (Scenario.finished None)) in
  calls (snd (_handle_event world Scenario.bot (Scenario.message "U1" "$bu HELP ")
                "E1" init_state)) =
    [chat_postMessage (VStr "C1") (help_text Scenario.bot) (VStr "T1")] ∧
  ∃ cs,
    calls (snd (_handle_event world Scenario.bot (Scenario.message "U1" "$bu   ")
                  "E1" init_state)) =
      [] ++ [chat_postMessage (VStr "C1") (ack_text (VStr "U1") "") (VStr "T1")] ++
      Browser_new :: cs.
Proof.
  intros world.
  assert (∀ text, addressed (Scenario.message "U1" text) text) as Haddr.
  { intros text. repeat split.
    intros subtype Hsub. vm_compute in Hsub. discriminate. }
  split.
  - pose proof (command_classification world Scenario.bot "$bu HELP ") as H.
    change (spec_parse "$bu HELP " (command_prefix Scenario.bot)) with Help in H.
    destruct H as (_ & _ & H).
    apply (H _ (Haddr _)); [discriminate | apply not_elem_of_empty].
  - pose proof (command_classification world Scenario.bot "$bu   ") as H.
    change (spec_parse "$bu   " (command_prefix Scenario.bot)) with (Task "") in H.
    destruct H as (_ & _ & H).
    apply (H _ (Haddr _)); [discriminate | apply not_elem_of_empty].
Defined.
